(** * gotemp: convention-driven loading and rendering of HTML templates

    A shallow embedding of package [gotemp] (type [Gotemp], [New],
    [RenderPage], [loadPages], [loadRoot], [loadPartials], [loadLayouts],
    [clone]) together with models of the parts of the Go standard library
    the package calls: [path], [path/filepath], [os] and [html/template]. *)

From Stdlib Require Import Ascii String List Bool Arith Lia.
From stdpp Require Import base option list strings gmap fin_maps.

Local Open Scope string_scope.
Local Open Scope list_scope.

(** ** Package [path]: lexical path manipulation *)

Module path.

(** [strings.Split(s, "/")]: the components between slashes, empty ones
    included. *)
Fixpoint split (s : string) : list string :=
  match s with
  | EmptyString => [EmptyString]
  | String c s' =>
      if Ascii.eqb c "/" then EmptyString :: split s'
      else match split s' with
           | [] => [String c EmptyString]
           | x :: xs => String c x :: xs
           end
  end.

(** [strings.Join(l, "/")]. *)
Fixpoint join (l : list string) : string :=
  match l with
  | [] => EmptyString
  | [x] => x
  | x :: xs => x +:+ "/" +:+ join xs
  end.

Definition rooted (p : string) : bool :=
  match p with
  | String c _ => Ascii.eqb c "/"
  | EmptyString => false
  end.

(** One step of [Clean]'s scan: [out] is the list of components kept so
    far, the last one first. *)
Definition step (r : bool) (out : list string) (c : string) : list string :=
  if String.eqb c "" || String.eqb c "." then out
  else if String.eqb c ".." then
    match out with
    | top :: rest => if String.eqb top ".." then c :: out else rest
    | [] => if r then [] else [c]
    end
  else c :: out.

Definition normalize (r : bool) (cs : list string) : list string :=
  rev (fold_left (step r) cs []).

(** [path.Clean]: multiple slashes collapse, [.] elements disappear, an
    inner [..] removes the element before it, a [..] that begins a rooted
    path disappears, and the empty result is [.]. *)
Definition render (r : bool) (cs : list string) : string :=
  (if r then "/" else "") +:+ join cs.

Definition Clean (p : string) : string :=
  if String.eqb p "" then "."
  else
    let r := rooted p in
    let out := render r (normalize r (split p)) in
    if String.eqb out "" then "." else out.

(** [path.Join]: empty elements are ignored, the rest is joined with
    slashes and cleaned; no element at all gives the empty string. *)
Definition Join (elem : list string) : string :=
  match List.filter (fun e => negb (String.eqb e "")) elem with
  | [] => ""
  | es => Clean (join es)
  end.

End path.

(** ** Errors

    Go errors are values; the package builds its own with [fmt.Errorf],
    either from a message alone or by wrapping a cause ([%w]).  The other
    constructors are the errors the standard library hands back. *)

Inductive error : Type :=
| PathError (op : string) (name : string)   (* os: [op name] failed *)
| ErrBadPattern                             (* filepath: syntax error in pattern *)
| ErrNoMatch (pattern : string)             (* html/template: pattern matches no files *)
| ErrSyntax (name : string)                 (* template: the text does not parse *)
| ErrAfterExec (name : string)              (* html/template: cannot Clone or Parse after it has executed *)
| ErrUndefined (name : string)              (* html/template: [name] is undefined *)
| ErrExec (msg : string)                    (* template: error while escaping or executing *)
| Errorf (msg : string)                     (* fmt.Errorf(msg) *)
| Wrapf (msg : string) (cause : error).     (* fmt.Errorf(msg + ": %w", cause) *)

Inductive result (A : Type) : Type :=
| Ok (a : A)
| Err (e : error).
Arguments Ok {A} a.
Arguments Err {A} e.

Definition is_ok {A} (r : result A) : bool :=
  match r with Ok _ => true | Err _ => false end.

(** ** Package [os]: a file tree

    The file system is a tree of regular files and directories, seen by a
    process whose working directory is the root of the tree (so a relative
    and a rooted path name the same node and [..] at the top stays at the
    top).  There are no symbolic links.  A file whose content is [None]
    cannot be read; a directory that is not [listable] cannot be listed
    but can be traversed.  A directory lists its entries in the order they
    are stored ([os.ReadDir] sorts by file name: trees are written in that
    order). *)

Module os.

#[warnings="-register-all"] Inductive Node : Type :=
| File (content : option string)
| Dir (listable : bool) (entries : list (string * Node)).

Fixpoint lookup_entry (name : string) (es : list (string * Node)) : option Node :=
  match es with
  | [] => None
  | (n, x) :: es' => if String.eqb n name then Some x else lookup_entry name es'
  end.

(** Path resolution, one component at a time; [anc] holds the directories
    above the current one, the nearest first. *)
Fixpoint walk (anc : list Node) (cur : Node) (cs : list string) : option Node :=
  match cs with
  | [] => Some cur
  | c :: cs' =>
      match cur with
      | File _ => None
      | Dir _ es =>
          if String.eqb c "" || String.eqb c "." then walk anc cur cs'
          else if String.eqb c ".." then
            match anc with
            | [] => walk [] cur cs'
            | a :: anc' => walk anc' a cs'
            end
          else
            match lookup_entry c es with
            | Some n => walk (cur :: anc) n cs'
            | None => None
            end
      end
  end.

Definition resolve (fs : Node) (p : string) : option Node :=
  if String.eqb p "" then None else walk [] fs (path.split p).

(** The entry called [name] of a node. *)
Definition child (name : string) (x : Node) : option Node :=
  match x with
  | Dir _ es => lookup_entry name es
  | File _ => None
  end.

Record DirEntry : Type := { Name : string; IsDir : bool }.

Definition entry_of (e : string * Node) : DirEntry :=
  {| Name := fst e;
     IsDir := match snd e with Dir _ _ => true | File _ => false end |}.

Definition ReadDir (fs : Node) (name : string) : result (list DirEntry) :=
  match resolve fs name with
  | Some (Dir true es) => Ok (map entry_of es)
  | _ => Err (PathError "open" name)
  end.

Definition ReadFile (fs : Node) (name : string) : result string :=
  match resolve fs name with
  | Some (File (Some text)) => Ok text
  | _ => Err (PathError "open" name)
  end.

Definition Lstat (fs : Node) (name : string) : bool :=
  match resolve fs name with Some _ => true | None => false end.

(** A name a directory entry can have. *)
Definition plain (n : string) : bool :=
  negb (String.eqb n "") && negb (String.eqb n ".") && negb (String.eqb n "..")
  && forallb (fun c => negb (Ascii.eqb c "/")) (list_ascii_of_string n).

Fixpoint distinct (ns : list string) : bool :=
  match ns with
  | [] => true
  | n :: ns' => negb (existsb (String.eqb n) ns') && distinct ns'
  end.

(** Well-formed trees: in every directory the entry names are proper file
    names and pairwise different. *)
Fixpoint wf (n : Node) : bool :=
  match n with
  | File _ => true
  | Dir _ es =>
      forallb plain (map fst es) && distinct (map fst es)
      && forallb (fun e => let '(_, x) := e in wf x) es
  end.

End os.

(** ** Package [path/filepath] (Unix): [Split], [Base], [Glob] *)

Module filepath.

(** [filepath.Split]: the directory up to and including the last slash,
    and the file after it. *)
Fixpoint Split (p : string) : string * string :=
  match p with
  | EmptyString => (EmptyString, EmptyString)
  | String c p' =>
      let '(d, f) := Split p' in
      if negb (String.eqb d "") then (String c d, f)
      else if Ascii.eqb c "/" then ("/", p')
      else (EmptyString, String c f)
  end.

Fixpoint drop_empty (l : list string) : list string :=
  match l with
  | x :: l' => if String.eqb x "" then drop_empty l' else l
  | [] => []
  end.

(** [filepath.Base]: the last element of the path, trailing slashes
    removed first. *)
Definition Base (p : string) : string :=
  if String.eqb p "" then "."
  else match drop_empty (rev (path.split p)) with
       | [] => "/"
       | x :: _ => x
       end.

Definition is_meta (c : ascii) : bool :=
  Ascii.eqb c "*" || Ascii.eqb c "?" || Ascii.eqb c "[" || Ascii.eqb c "092".

(** [hasMeta]: the path contains one of the magic characters of
    [filepath.Match]. *)
Definition hasMeta (p : string) : bool :=
  existsb is_meta (list_ascii_of_string p).

Fixpoint chop (p : string) : string :=
  match p with
  | EmptyString => EmptyString
  | String c EmptyString => EmptyString
  | String c p' => String c (chop p')
  end.

Definition cleanGlobPath (p : string) : string :=
  if String.eqb p "" then "."
  else if String.eqb p "/" then p
  else chop p.

Fixpoint ends_with (suffix s : string) : bool :=
  if String.eqb s suffix then true
  else match s with
       | EmptyString => false
       | String _ s' => ends_with suffix s'
       end.

(** [filepath.Match] for the patterns the package uses: a star followed by
    literal text matches the names that end with the text (a name holds no
    separator).  [None] stands for a pattern outside this shape. *)
Definition Match (pattern name : string) : option bool :=
  match pattern with
  | String c lit =>
      if Ascii.eqb c "*" && negb (hasMeta lit) then Some (ends_with lit name)
      else None
  | EmptyString => None
  end.

(** [glob]: the entries of [dir] whose name matches, joined to [dir]; a
    directory that does not exist or cannot be listed matches nothing. *)
Definition glob (fs : os.Node) (dir pattern : string) : result (list string) :=
  match os.resolve fs dir with
  | Some (os.Dir true es) =>
      match Match pattern "" with
      | None => Err ErrBadPattern
      | Some _ =>
          Ok (map (fun n => path.Join [dir; n])
                (List.filter (fun n => match Match pattern n with
                                       | Some b => b
                                       | None => false
                                       end) (map fst es)))
      end
  | _ => Ok []
  end.

(** [filepath.Glob].  A pattern without magic characters names at most
    itself; otherwise the last element is matched against the entries of
    the directory before it.  Directories that themselves hold magic
    characters are outside this model (Go expands them recursively) and
    are reported as a bad pattern. *)
Definition Glob (fs : os.Node) (pattern : string) : result (list string) :=
  if negb (hasMeta pattern) then
    if os.Lstat fs pattern then Ok [pattern] else Ok []
  else
    let '(dir, file) := Split pattern in
    let dir := cleanGlobPath dir in
    if negb (hasMeta dir) then glob fs dir file
    else Err ErrBadPattern.

End filepath.

(** ** Shapes of cleaned paths *)

(** The name holds no slash. *)
Definition slash_free (n : string) : bool :=
  forallb (fun c => negb (Ascii.eqb c "/")) (list_ascii_of_string n).

(** The shape of a cleaned component list: some [..] (none when the path
    is rooted), then proper names. *)
Definition clean_list (r : bool) (l : list string) : Prop :=
  exists k names,
    l = repeat ".." k ++ names /\ Forall (fun n => os.plain n = true) names
    /\ (r = true -> k = 0).

Definition clean_stack (r : bool) (st : list string) : Prop :=
  exists k names,
    st = names ++ repeat ".." k /\ Forall (fun n => os.plain n = true) names
    /\ (r = true -> k = 0).

(** A cleaned path that ends in a proper name: what [path.Join] returns
    when its last element is one. *)
Definition clean_path (q : string) : Prop :=
  exists r l a,
    clean_list r l /\ os.plain a = true /\ q = path.render r (l ++ [a]).

(** ** The template language

    Parsing and executing template text is the business of Go's
    [text/template] and [html/template]; the package only decides which
    texts are parsed into which set and in what order.  The development is
    therefore parametric in the language: a type of parse trees, the parser
    ([parse.Parse]: the trees a text defines, by name, the text's own tree
    under the given name), the test for trees without content
    ([parse.IsEmptyTree]) and the executor (what executing a tree of a set
    on a datum writes, and the error that stopped it, if any). *)

Class TemplateLang : Type := {
  Tree : Type;
  Data : Type;
  Parse : string -> string -> option (gmap string Tree);
  IsEmptyTree : Tree -> bool;
  Exec : gmap string Tree -> Tree -> Data -> string * option error
}.

(** ** Package [html/template]: template sets on a heap

    A [*template.Template] points to a name space shared by all templates
    associated with it.  The heap holds the name spaces; [Clone] allocates
    a new one, parsing updates one in place, and executing marks it (after
    which the library refuses to parse into it or to clone it). *)

Module template.
Section WithLang.
Context {L : TemplateLang}.

Record nameSpace : Type := { set : gmap string Tree; escaped : bool }.

Record Template : Type := { ns : nat; Name : string }.

Local Abbreviation Heap := (list nameSpace).

Definition empty_ns : nameSpace := {| set := ∅; escaped := false |}.

Definition deref (h : Heap) (a : nat) : nameSpace := default empty_ns (h !! a).

(** Computations on the heap that may fail. *)
Definition M (A : Type) : Type := Heap -> result A * Heap.

Definition ret {A} (a : A) : M A := fun h => (Ok a, h).

Definition bind {A B} (m : M A) (k : A -> M B) : M B :=
  fun h => match m h with
           | (Ok a, h') => k a h'
           | (Err e, h') => (Err e, h')
           end.

Definition fail {A} (e : error) : M A := fun h => (Err e, h).

Definition lift {A} (r : result A) : M A := fun h => (r, h).

(** [if err != nil { return fmt.Errorf(msg + ": %w", err) }] *)
Definition wrap {A} (msg : string) (m : M A) : M A :=
  fun h => match m h with
           | (Ok a, h') => (Ok a, h')
           | (Err e, h') => (Err (Wrapf msg e), h')
           end.

(** [template.New(name)]: a template in a name space of its own. *)
Definition New (name : string) : M Template :=
  fun h => (Ok {| ns := length h; Name := name |}, h ++ [empty_ns]).

(** [t.Clone()]: a copy of the whole set in a new name space. *)
Definition Clone (t : Template) : M Template :=
  fun h =>
    let n := deref h (ns t) in
    if escaped n then (Err (ErrAfterExec (Name t)), h)
    else (Ok {| ns := length h; Name := Name t |},
          h ++ [{| set := set n; escaped := false |}]).

(** [AddParseTree] for every parsed tree: a tree replaces the one of the
    same name, except that a tree without content leaves an existing one
    in place. *)
Definition add_trees (new old : gmap string Tree) : gmap string Tree :=
  union_with (fun n o => Some (if IsEmptyTree n then o else n)) new old.

(** [t.New(name).Parse(text)]: parse [text] under [name] into the name
    space of [t]. *)
Definition parse_into (t : Template) (name text : string) : M unit :=
  fun h =>
    let n := deref h (ns t) in
    if escaped n then (Err (ErrAfterExec name), h)
    else match Parse name text with
         | None => (Err (ErrSyntax name), h)
         | Some trees =>
             (Ok tt, <[ns t := {| set := add_trees trees (set n); escaped := false |}]> h)
         end.

(** The loop of [parseFiles] over the file names, for a receiver that
    exists. *)
Fixpoint parse_each (fs : os.Node) (t : Template) (filenames : list string) : M Template :=
  match filenames with
  | [] => ret t
  | filename :: rest =>
      bind (lift (os.ReadFile fs filename)) (fun text =>
      bind (parse_into t (filepath.Base filename) text) (fun _ =>
      parse_each fs t rest))
  end.

(** [parseFiles(t, readFileOS, filenames...)]; [None] is the nil receiver
    of the package-level functions, for which the first file read names the
    new template. *)
Definition parseFiles (fs : os.Node) (t : option Template) (filenames : list string) : M Template :=
  match t with
  | Some t =>
      fun h =>
        if escaped (deref h (ns t)) then (Err (ErrAfterExec (Name t)), h)
        else match filenames with
             | [] => (Err (Errorf "html/template: no files named in call to ParseFiles"), h)
             | _ => parse_each fs t filenames h
             end
  | None =>
      match filenames with
      | [] => fail (Errorf "html/template: no files named in call to ParseFiles")
      | filename :: rest =>
          bind (lift (os.ReadFile fs filename)) (fun text =>
          bind (New (filepath.Base filename)) (fun t =>
          bind (parse_into t (filepath.Base filename) text) (fun _ =>
          parse_each fs t rest)))
      end
  end.

(** [parseGlob(t, pattern)]: the pattern must match at least one file. *)
Definition parseGlob (fs : os.Node) (t : option Template) (pattern : string) : M Template :=
  fun h =>
    if match t with Some t => escaped (deref h (ns t)) | None => false end
    then (Err (ErrAfterExec (match t with Some t => Name t | None => "" end)), h)
    else match filepath.Glob fs pattern with
         | Err e => (Err e, h)
         | Ok [] => (Err (ErrNoMatch pattern), h)
         | Ok filenames => parseFiles fs t filenames h
         end.

(** [template.ParseGlob(pattern)], [t.ParseGlob(pattern)] and
    [t.ParseFiles(filenames...)]. *)
Definition ParseGlob (fs : os.Node) (pattern : string) : M Template :=
  parseGlob fs None pattern.

Definition ParseGlob_into (fs : os.Node) (t : Template) (pattern : string) : M Template :=
  parseGlob fs (Some t) pattern.

Definition ParseFiles (fs : os.Node) (t : Template) (filenames : list string) : M Template :=
  parseFiles fs (Some t) filenames.

(** [t.ExecuteTemplate(w, name, data)]: the set is marked as executed, the
    named template is looked up, escaped and executed, and what it writes
    is appended to [w].  The result is the error (if any) and the
    writer. *)
Definition ExecuteTemplate (t : Template) (w : string) (name : string) (data : Data)
  : Heap -> (option error * string) * Heap :=
  fun h =>
    let n := deref h (ns t) in
    let h' := <[ns t := {| set := set n; escaped := true |}]> h in
    match set n !! name with
    | None => ((Some (ErrUndefined name), w), h')
    | Some tree =>
        let '(out, err) := Exec (set n) tree data in
        ((err, w +:+ out), h')
    end.

End WithLang.

Abbreviation Heap := (list nameSpace).

(** [x, err := m; if err != nil { return err }; k] *)
Notation "'let!' x ':=' m 'in' k" := (bind m (fun x => k))
  (at level 10, x name, m at level 100, k at level 200).

End template.

(** ** Package [gotemp] *)

Module gotemp.
Section WithLang.
Context {L : TemplateLang}.

Import template.

(** [type Gotemp struct { basePath string; pages map[string]*template.Template }] *)
Record Gotemp : Type := {
  basePath : string;
  pages : gmap string Template
}.

(** [func (tc *Gotemp) RenderPage(w io.Writer, layout, page string, data any) error] *)
Definition RenderPage (tc : Gotemp) (w : string) (layout page : string) (data : Data)
  : Heap -> (option error * string) * Heap :=
  fun h =>
    match pages tc !! page with
    | None => ((Some (Errorf ("page template not found: " +:+ page)), w), h)
    | Some pageTemplate => ExecuteTemplate pageTemplate w layout data h
    end.

(** [func clone(temp)]: the clone of a template set, or the wrapped error. *)
Definition clone (temp : Template) : M Template :=
  wrap "failed to clone template" (Clone temp).

(** [func (tc *Gotemp) loadRoot()]: the set parsed from [root.html]. *)
Definition loadRoot (fs : os.Node) (tc : Gotemp) : M Template :=
  ParseGlob fs (path.Join [basePath tc; "root.html"]).

(** [func (tc *Gotemp) loadPartials(root)]: a clone of the root set with
    the partials parsed into it. *)
Definition loadPartials (fs : os.Node) (tc : Gotemp) (root : Template) : M Template :=
  let! clonedRoot := wrap "failed to clone root template" (clone root) in
  ParseGlob_into fs clonedRoot (path.Join [basePath tc; "partials"; "*.html"]).

(** [func (tc *Gotemp) loadLayouts(partials)]: a clone of the partials set
    with the layouts parsed into it. *)
Definition loadLayouts (fs : os.Node) (tc : Gotemp) (partials : Template) : M Template :=
  let! clonedPartials := wrap "failed to clone partials template" (clone partials) in
  ParseGlob_into fs clonedPartials (path.Join [basePath tc; "layouts"; "*.html"]).

(** The inner loop of [loadPages]: [for _, file := range files]. *)
Fixpoint loadFiles (fs : os.Node) (pagesPath dirName : string) (layouts : Template)
    (files : list os.DirEntry) (pages : gmap string Template) : M (gmap string Template) :=
  match files with
  | [] => ret pages
  | file :: files' =>
      if negb (os.IsDir file) then
        let fileName := os.Name file in
        let name := path.Join [pagesPath; dirName; fileName] in
        let! layout := wrap "failed to clone layout template" (clone layouts) in
        let pageKey := path.Join [dirName; fileName] in
        let! t := wrap ("failed to parse page template " +:+ name)
                    (ParseFiles fs layout [name]) in
        loadFiles fs pagesPath dirName layouts files' (<[pageKey := t]> pages)
      else loadFiles fs pagesPath dirName layouts files' pages
  end.

(** The outer loop of [loadPages]: [for _, entry := range entries]. *)
Fixpoint loadDirs (fs : os.Node) (pagesPath : string) (layouts : Template)
    (entries : list os.DirEntry) (pages : gmap string Template) : M (gmap string Template) :=
  match entries with
  | [] => ret pages
  | entry :: entries' =>
      let dirName := os.Name entry in
      let dirPath := path.Join [pagesPath; dirName] in
      let! files := wrap ("could not read the subpages directory " +:+ dirPath)
                      (lift (os.ReadDir fs dirPath)) in
      let! pages' := loadFiles fs pagesPath dirName layouts files pages in
      loadDirs fs pagesPath layouts entries' pages'
  end.

(** [func (tc *Gotemp) loadPages() error]; the receiver with its registry
    set is the result.  The map [pages] is local until the last line, so
    nothing of it survives an error. *)
Definition loadPages (fs : os.Node) (tc : Gotemp) : M Gotemp :=
  let! root := wrap "failed to load root template" (loadRoot fs tc) in
  let! partials := wrap "failed to load partials" (loadPartials fs tc root) in
  let! layouts := wrap "failed to load layouts" (loadLayouts fs tc partials) in
  let pages := (∅ : gmap string Template) in
  let pagesPath := path.Join [basePath tc; "pages"] in
  let! entries := wrap "could not read the pages directory"
                    (lift (os.ReadDir fs pagesPath)) in
  let! pages := loadDirs fs pagesPath layouts entries pages in
  ret {| basePath := basePath tc; pages := pages |}.

(** [func New(basePath string)]: the engine, or the error of loading. *)
Definition New (fs : os.Node) (basePath : string) : M Gotemp :=
  let gotemp := {| basePath := basePath; pages := ∅ |} in
  loadPages fs gotemp.

End WithLang.
End gotemp.

(** ** Construction as a function of the file tree

    What [New] computes, without the heap: the set each loading step
    arrives at, and the pages in the order they are compiled.  The
    theorems below show that the package, which shares name spaces by
    reference and updates them in place, computes exactly this. *)

Section Summary.
Context {L : TemplateLang}.

Import template gotemp.

(** The name space holding a set that has not been executed. *)
Definition fresh_ns (s : gmap string Tree) : nameSpace :=
  {| set := s; escaped := false |}.

(** The set after parsing the files, in order, into [s]. *)
Fixpoint parse_all (fs : os.Node) (filenames : list string) (s : gmap string Tree)
  : option (gmap string Tree) :=
  match filenames with
  | [] => Some s
  | filename :: rest =>
      match os.ReadFile fs filename with
      | Ok text =>
          match Parse (filepath.Base filename) text with
          | Some trees => parse_all fs rest (add_trees trees s)
          | None => None
          end
      | Err _ => None
      end
  end.

(** The set after parsing the files matching a pattern into [s]; there
    must be at least one. *)
Definition glob_set (fs : os.Node) (pattern : string) (s : gmap string Tree)
  : option (gmap string Tree) :=
  match filepath.Glob fs pattern with
  | Ok (filename :: rest) => parse_all fs (filename :: rest) s
  | _ => None
  end.

(** The name of the template [template.ParseGlob] returns: that of the
    first file matched. *)
Definition glob_name (fs : os.Node) (pattern : string) : string :=
  match filepath.Glob fs pattern with
  | Ok (filename :: _) => filepath.Base filename
  | _ => ""
  end.

(** The pages compiled from the files of one category, with their keys. *)
Fixpoint compile_files (fs : os.Node) (pagesPath dirName : string)
    (layouts : gmap string Tree) (files : list os.DirEntry)
  : option (list (string * gmap string Tree)) :=
  match files with
  | [] => Some []
  | file :: files' =>
      if negb (os.IsDir file) then
        match parse_all fs [path.Join [pagesPath; dirName; os.Name file]] layouts with
        | Some s =>
            match compile_files fs pagesPath dirName layouts files' with
            | Some ps => Some ((path.Join [dirName; os.Name file], s) :: ps)
            | None => None
            end
        | None => None
        end
      else compile_files fs pagesPath dirName layouts files'
  end.

(** The pages compiled from all categories. *)
Fixpoint compile_dirs (fs : os.Node) (pagesPath : string)
    (layouts : gmap string Tree) (entries : list os.DirEntry)
  : option (list (string * gmap string Tree)) :=
  match entries with
  | [] => Some []
  | entry :: entries' =>
      match os.ReadDir fs (path.Join [pagesPath; os.Name entry]) with
      | Ok files =>
          match compile_files fs pagesPath (os.Name entry) layouts files with
          | Some ps =>
              match compile_dirs fs pagesPath layouts entries' with
              | Some qs => Some (ps ++ qs)
              | None => None
              end
          | None => None
          end
      | Err _ => None
      end
  end.

(** The registry after storing the pages, the first one at address [n],
    each under its key. *)
Fixpoint install (name : string) (n : nat) (ps : list (string * gmap string Tree))
    (pages : gmap string Template) : gmap string Template :=
  match ps with
  | [] => pages
  | (key, _) :: ps' =>
      install name (S n) ps' (<[key := {| ns := n; Name := name |}]> pages)
  end.

Record Built : Type := {
  root_name : string;
  root_set : gmap string Tree;
  partials_set : gmap string Tree;
  layouts_set : gmap string Tree;
  page_sets : list (string * gmap string Tree)
}.

Definition build (fs : os.Node) (basePath : string) : option Built :=
  match glob_set fs (path.Join [basePath; "root.html"]) ∅ with
  | None => None
  | Some rs =>
  match glob_set fs (path.Join [basePath; "partials"; "*.html"]) rs with
  | None => None
  | Some ps =>
  match glob_set fs (path.Join [basePath; "layouts"; "*.html"]) ps with
  | None => None
  | Some ls =>
  match os.ReadDir fs (path.Join [basePath; "pages"]) with
  | Err _ => None
  | Ok entries =>
  match compile_dirs fs (path.Join [basePath; "pages"]) ls entries with
  | None => None
  | Some pgs =>
      Some {| root_name := glob_name fs (path.Join [basePath; "root.html"]);
              root_set := rs; partials_set := ps; layouts_set := ls;
              page_sets := pgs |}
  end end end end end.

(** The heap and the engine [New] leaves behind when started on heap [h]. *)
Definition built_heap (h : Heap) (b : Built) : Heap :=
  h ++ [fresh_ns (root_set b); fresh_ns (partials_set b); fresh_ns (layouts_set b)]
    ++ map (fun p => fresh_ns (snd p)) (page_sets b).

Definition built_engine (h : Heap) (basePath : string) (b : Built) : Gotemp :=
  {| basePath := basePath;
     pages := install (root_name b) (length h + 3) (page_sets b) ∅ |}.



(** *** The conditions of the specification, as tests on the tree *)

(** The file can be read and its text parses. *)
Definition file_ok (fs : os.Node) (filename : string) : bool :=
  match os.ReadFile fs filename with
  | Ok text =>
      match Parse (filepath.Base filename) text with Some _ => true | None => false end
  | Err _ => false
  end.


(** At least one file matches the pattern, and all that match parse. *)
Definition glob_ok (fs : os.Node) (pattern : string) : bool :=
  match filepath.Glob fs pattern with
  | Ok (filename :: rest) => forallb (file_ok fs) (filename :: rest)
  | _ => false
  end.

Definition partials_ok (fs : os.Node) (basePath : string) : bool :=
  glob_ok fs (path.Join [basePath; "partials"; "*.html"]).

Definition layouts_ok (fs : os.Node) (basePath : string) : bool :=
  glob_ok fs (path.Join [basePath; "layouts"; "*.html"]).

(** The pages directory exists and all of its contents are readable and
    parseable: it can be listed, so can every entry in it, and every file
    in these parses. *)
Definition category_ok (fs : os.Node) (pagesPath : string) (entry : os.DirEntry) : bool :=
  match os.ReadDir fs (path.Join [pagesPath; os.Name entry]) with
  | Ok files =>
      forallb (fun file =>
                 os.IsDir file
                 || file_ok fs (path.Join [pagesPath; os.Name entry; os.Name file]))
        files
  | Err _ => false
  end.

Definition pages_ok (fs : os.Node) (basePath : string) : bool :=
  match os.ReadDir fs (path.Join [basePath; "pages"]) with
  | Ok entries => forallb (category_ok fs (path.Join [basePath; "pages"])) entries
  | Err _ => false
  end.



(** *** The errors of [loadPages]

    Why parsing a list of files fails: one of them cannot be read, or its
    text does not parse. *)
Inductive parse_cause (fs : os.Node) (filenames : list string) : error -> Prop :=
| parse_cause_read filename :
    In filename filenames ->
    is_ok (os.ReadFile fs filename) = false ->
    parse_cause fs filenames (PathError "open" filename)
| parse_cause_syntax filename text :
    In filename filenames ->
    os.ReadFile fs filename = Ok text ->
    Parse (filepath.Base filename) text = None ->
    parse_cause fs filenames (ErrSyntax (filepath.Base filename)).

(** Why [ParseGlob] fails on a pattern that lists: no file matches, or
    parsing the files that match fails. *)
Inductive glob_cause (fs : os.Node) (pattern : string) : error -> Prop :=
| glob_cause_no_match :
    filepath.Glob fs pattern = Ok [] ->
    glob_cause fs pattern (ErrNoMatch pattern)
| glob_cause_file filenames cause :
    filepath.Glob fs pattern = Ok filenames ->
    parse_cause fs filenames cause ->
    glob_cause fs pattern cause.

(** Root, partials and layouts load. *)
Definition ancestors_ok (fs : os.Node) (basePath : string) : bool :=
  glob_ok fs (path.Join [basePath; "root.html"])
  && partials_ok fs basePath && layouts_ok fs basePath.

(** Every [return fmt.Errorf(...)] of [loadPages] that can be reached, with
    the condition on the tree under which it is: the context names the
    phase, the phases before it have passed, and the cause is the
    library's error for what is wrong in the tree; for a category or a
    page the context names the path that failed. *)
Inductive load_error (fs : os.Node) (base : string) : error -> Prop :=
| load_error_root cause :
    glob_cause fs (path.Join [base; "root.html"]) cause ->
    load_error fs base (Wrapf "failed to load root template" cause)
| load_error_partials cause :
    glob_ok fs (path.Join [base; "root.html"]) = true ->
    glob_cause fs (path.Join [base; "partials"; "*.html"]) cause ->
    load_error fs base (Wrapf "failed to load partials" cause)
| load_error_layouts cause :
    glob_ok fs (path.Join [base; "root.html"]) = true ->
    partials_ok fs base = true ->
    glob_cause fs (path.Join [base; "layouts"; "*.html"]) cause ->
    load_error fs base (Wrapf "failed to load layouts" cause)
| load_error_pages :
    ancestors_ok fs base = true ->
    is_ok (os.ReadDir fs (path.Join [base; "pages"])) = false ->
    load_error fs base
      (Wrapf "could not read the pages directory"
         (PathError "open" (path.Join [base; "pages"])))
| load_error_category entries entry :
    ancestors_ok fs base = true ->
    os.ReadDir fs (path.Join [base; "pages"]) = Ok entries ->
    In entry entries ->
    is_ok (os.ReadDir fs (path.Join [path.Join [base; "pages"]; os.Name entry])) = false ->
    load_error fs base
      (Wrapf ("could not read the subpages directory "
              +:+ path.Join [path.Join [base; "pages"]; os.Name entry])
         (PathError "open" (path.Join [path.Join [base; "pages"]; os.Name entry])))
| load_error_page entries entry files file cause :
    ancestors_ok fs base = true ->
    os.ReadDir fs (path.Join [base; "pages"]) = Ok entries ->
    In entry entries ->
    os.ReadDir fs (path.Join [path.Join [base; "pages"]; os.Name entry]) = Ok files ->
    In file files ->
    os.IsDir file = false ->
    parse_cause fs [path.Join [path.Join [base; "pages"]; os.Name entry; os.Name file]]
      cause ->
    load_error fs base
      (Wrapf ("failed to parse page template "
              +:+ path.Join [path.Join [base; "pages"]; os.Name entry; os.Name file])
         cause).

(** What the render of a page writes and returns, given the page's set. *)
Definition execute_in (s : gmap string Tree) (w layout : string) (data : Data)
  : option error * string :=
  match s !! layout with
  | None => (Some (ErrUndefined layout), w)
  | Some tree => (snd (Exec s tree data), w +:+ fst (Exec s tree data))
  end.

End Summary.

(** The leaf files of a pages directory: category and file name of every
    entry of a category that is not a directory. *)
Definition category_files (category : string) (x : os.Node) : list (string * string) :=
  match x with
  | os.Dir _ files =>
      flat_map (fun f =>
        match snd f with
        | os.File _ => [(category, fst f)]
        | os.Dir _ _ => []
        end) files
  | os.File _ => []
  end.

Definition leaf_files (categories : list (string * os.Node)) : list (string * string) :=
  flat_map (fun c => category_files (fst c) (snd c)) categories.

Definition page_key (cf : string * string) : string := fst cf +:+ "/" +:+ snd cf.

(** ** The literal fragment of the template language

    A text without actions (no [{{]) is one template, named after its
    file, whose execution writes the text as it stands.  This instance of
    the language covers such texts only: a text that opens an action is
    refused.  It serves to run the package on concrete trees. *)

Module Literal.

Fixpoint has_action (s : string) : bool :=
  match s with
  | EmptyString => false
  | String c s' =>
      match s' with
      | String c' _ => (Ascii.eqb c "{" && Ascii.eqb c' "{") || has_action s'
      | EmptyString => false
      end
  end.

Definition is_space (c : ascii) : bool :=
  Ascii.eqb c " " || Ascii.eqb c "009" || Ascii.eqb c "010" || Ascii.eqb c "013".

Definition lang : TemplateLang := {|
  Tree := string;
  Data := option (list (string * string));
  Parse := fun name text =>
    if has_action text then None else Some {[ name := text ]};
  IsEmptyTree := fun t => forallb is_space (list_ascii_of_string t);
  Exec := fun _ t _ => (t, None)
|}.

End Literal.

(** ** Sample trees *)

Module Sample.

Definition home : os.Node :=
  os.Dir true [("index.html", os.File (Some "<h1>Homepage</h1>"))].

Definition root_html : os.Node := os.File (Some "<!DOCTYPE html>").

Definition partials : os.Node :=
  os.Dir true [("_header.html", os.File (Some "Your APP!!"))].

Definition layouts : os.Node :=
  os.Dir true [("app.html", os.File (Some "<main>app_layout</main>"))].

Definition in_examples (entries : list (string * os.Node)) : os.Node :=
  os.Dir true [("examples", os.Dir true entries)].

(** The layout of the README: a root, one partial, one layout, one page. *)
Definition complete : os.Node :=
  in_examples [("layouts", layouts);
               ("pages", os.Dir true [("home", home)]);
               ("partials", partials);
               ("root.html", root_html)].

(** The same without the [partials] directory. *)
Definition no_partials : os.Node :=
  in_examples [("layouts", layouts);
               ("pages", os.Dir true [("home", home)]);
               ("root.html", root_html)].


(** A directory at the leaf level and a second category. *)
Definition nested : os.Node :=
  in_examples [("layouts", layouts);
               ("pages", os.Dir true
                  [("auth", os.Dir true [("sign_in.html", os.File (Some "Sign in"))]);
                   ("home", os.Dir true
                      [("drafts", os.Dir true [("old.html", os.File (Some "old"))]);
                       ("index.html", os.File (Some "<h1>Homepage</h1>"))])]);
               ("partials", partials);
               ("root.html", root_html)].

(** A regular file directly in [pages]. *)
Definition stray_file : os.Node :=
  in_examples [("layouts", layouts);
               ("pages", os.Dir true
                  [("home", home);
                   ("notes.html", os.File (Some "notes"))]);
               ("partials", partials);
               ("root.html", root_html)].

(** A [partials] directory without any [.html] file. *)
Definition empty_partials : os.Node :=
  in_examples [("layouts", layouts);
               ("pages", os.Dir true [("home", home)]);
               ("partials", os.Dir true [("README.md", os.File (Some "none yet"))]);
               ("root.html", root_html)].

(** The engine built from [complete] on the empty heap, and the heap it
    leaves. *)
Definition new_complete : result gotemp.Gotemp * list template.nameSpace :=
  gotemp.New (L := Literal.lang) complete "examples" [].

Definition engine : gotemp.Gotemp :=
  match fst new_complete with
  | Ok g => g
  | Err _ => {| gotemp.basePath := ""; gotemp.pages := ∅ |}
  end.

Definition heap : list template.nameSpace := snd new_complete.

(** The same for [nested]. *)
Definition new_nested : result gotemp.Gotemp * list template.nameSpace :=
  gotemp.New (L := Literal.lang) nested "examples" [].

Definition nested_engine : gotemp.Gotemp :=
  match fst new_nested with
  | Ok g => g
  | Err _ => {| gotemp.basePath := ""; gotemp.pages := ∅ |}
  end.

Definition nested_heap : list template.nameSpace := snd new_nested.

(** A [pages] directory without any entry. *)
Definition empty_pages : os.Node :=
  in_examples [("layouts", layouts);
               ("pages", os.Dir true []);
               ("partials", partials);
               ("root.html", root_html)].

(** The outcome of [New] on [stray_file]. *)
Definition new_stray : result gotemp.Gotemp * list template.nameSpace :=
  gotemp.New (L := Literal.lang) stray_file "examples" [].

(** A second engine, built from [nested] on the heap the first one left. *)
Definition new_second : result gotemp.Gotemp * list template.nameSpace :=
  gotemp.New (L := Literal.lang) nested "examples" heap.

Definition second_engine : gotemp.Gotemp :=
  match fst new_second with
  | Ok g => g
  | Err _ => {| gotemp.basePath := ""; gotemp.pages := ∅ |}
  end.

Definition second_heap : list template.nameSpace := snd new_second.




End Sample.

(** * Properties *)

(** ** The path functions on examples *)

Example Clean_1 : path.Clean "a//b/./c/.." = "a/b". Proof. reflexivity. Qed.
Example Clean_2 : path.Clean "/../a" = "/a". Proof. reflexivity. Qed.
Example Clean_3 : path.Clean "../../a/.." = "../..". Proof. reflexivity. Qed.
Example Clean_4 : path.Clean "a/.." = ".". Proof. reflexivity. Qed.
Example Join_1 : path.Join ["examples"; "pages"] = "examples/pages". Proof. reflexivity. Qed.
Example Join_2 : path.Join [""; "pages"] = "pages". Proof. reflexivity. Qed.
Example Join_3 : path.Join ["home"; "index.html"] = "home/index.html". Proof. reflexivity. Qed.
Example Split_1 : filepath.Split "examples/partials/*.html" = ("examples/partials/", "*.html").
Proof. reflexivity. Qed.
Example Split_2 : filepath.Split "root.html" = ("", "root.html"). Proof. reflexivity. Qed.
Example Base_1 : filepath.Base "examples/pages/home/index.html" = "index.html". Proof. reflexivity. Qed.
Example Base_2 : filepath.Base "a/b//" = "b". Proof. reflexivity. Qed.
Example Base_3 : filepath.Base "//" = "/". Proof. reflexivity. Qed.
Example Match_1 : filepath.Match "*.html" "_header.html" = Some true. Proof. reflexivity. Qed.
Example Match_2 : filepath.Match "*.html" "notes.txt" = Some false. Proof. reflexivity. Qed.

(** ** Strings and paths *)

Section PathFacts.

Lemma string_app_cons x (a b : string) : String x a +:+ b = String x (a +:+ b).
Proof. reflexivity. Qed.

Lemma string_app_nil_l (b : string) : "" +:+ b = b.
Proof. reflexivity. Qed.

Lemma string_app_assoc (a b c : string) : (a +:+ b) +:+ c = a +:+ (b +:+ c).
Proof.
  induction a as [|x a IH]; [reflexivity|].
  now rewrite !string_app_cons, IH.
Qed.

Lemma string_app_nil_r (a : string) : a +:+ "" = a.
Proof.
  induction a as [|x a IH]; [reflexivity|]. now rewrite string_app_cons, IH.
Qed.

Lemma plain_slash_free n : os.plain n = true -> slash_free n = true.
Proof. unfold os.plain. intros H. apply andb_true_iff in H as [_ H]. exact H. Qed.

Lemma plain_inv n :
  os.plain n = true -> n <> "" /\ n <> "." /\ n <> ".." /\ slash_free n = true.
Proof.
  unfold os.plain. rewrite !andb_true_iff, !negb_true_iff, !String.eqb_neq.
  tauto.
Qed.

Lemma split_not_nil s : path.split s <> [].
Proof.
  destruct s as [|c s]; simpl; [discriminate|].
  destruct (Ascii.eqb c "/"); [discriminate|].
  destruct (path.split s); discriminate.
Qed.

Lemma split_app_slash a b :
  path.split (a +:+ String "/" b) = path.split a ++ path.split b.
Proof.
  induction a as [|c a IH]; [reflexivity|].
  rewrite string_app_cons. simpl.
  rewrite IH. destruct (Ascii.eqb c "/"); [reflexivity|].
  destruct (path.split a) as [|x xs] eqn:E; [now apply split_not_nil in E|].
  reflexivity.
Qed.

Lemma split_slash_free n : slash_free n = true -> path.split n = [n].
Proof.
  unfold slash_free. induction n as [|c n IH]; simpl; [reflexivity|].
  rewrite andb_true_iff, negb_true_iff. intros [Hc Hn].
  rewrite Hc, (IH Hn). reflexivity.
Qed.

Lemma split_components s : Forall (fun c => slash_free c = true) (path.split s).
Proof.
  induction s as [|c s IH]; simpl; [repeat constructor|].
  destruct (Ascii.eqb c "/") eqn:Hc; [constructor; [reflexivity | exact IH]|].
  destruct (path.split s) as [|x xs].
  - constructor; [|constructor]. unfold slash_free. simpl. now rewrite Hc.
  - inversion IH; subst. constructor; [|assumption].
    unfold slash_free in *. simpl. now rewrite Hc.
Qed.

Lemma join_cons x y l : path.join (x :: y :: l) = x +:+ "/" +:+ path.join (y :: l).
Proof. reflexivity. Qed.

Lemma join_snoc l n : l <> [] -> path.join (l ++ [n]) = path.join l +:+ "/" +:+ n.
Proof.
  induction l as [|x l IH]; [congruence|]. intros _.
  destruct l as [|y l]; [reflexivity|].
  change ((x :: y :: l) ++ [n]) with (x :: (y :: l) ++ [n]).
  change ((y :: l) ++ [n]) with (y :: l ++ [n]) at 1.
  rewrite !join_cons. change (y :: l ++ [n]) with ((y :: l) ++ [n]).
  rewrite IH by discriminate. now rewrite !string_app_assoc.
Qed.

Lemma split_join l :
  l <> [] -> Forall (fun c => slash_free c = true) l -> path.split (path.join l) = l.
Proof.
  induction l as [|x l IH]; [congruence|]. intros _ Hl.
  inversion Hl as [|? ? Hx Hl']; subst.
  destruct l as [|y l]; [now apply split_slash_free|].
  rewrite join_cons. change ("/" +:+ path.join (y :: l)) with (String "/" (path.join (y :: l))).
  rewrite split_app_slash, (split_slash_free _ Hx), IH by (discriminate || assumption).
  reflexivity.
Qed.

(** A component that is a proper name is pushed. *)
Lemma step_plain r out n : os.plain n = true -> path.step r out n = n :: out.
Proof.
  intros H. apply plain_inv in H as (H1 & H2 & H3 & _).
  unfold path.step.
  apply String.eqb_neq in H1, H2, H3. now rewrite H1, H2, H3.
Qed.

Lemma normalize_snoc r cs n :
  os.plain n = true -> path.normalize r (cs ++ [n]) = path.normalize r cs ++ [n].
Proof.
  intros H. unfold path.normalize. rewrite fold_left_app. simpl.
  rewrite step_plain by assumption. reflexivity.
Qed.

Lemma plain_intro c :
  slash_free c = true -> c <> "" -> c <> "." -> c <> ".." -> os.plain c = true.
Proof.
  intros Hs H1 H2 H3. unfold os.plain.
  apply String.eqb_neq in H1, H2, H3. rewrite H1, H2, H3. exact Hs.
Qed.

Lemma step_clean r st c :
  slash_free c = true -> clean_stack r st -> clean_stack r (path.step r st c).
Proof.
  intros Hc (k & names & -> & Hn & Hr). unfold path.step.
  destruct (String.eqb c "") eqn:E1; [exists k, names; auto|].
  destruct (String.eqb c ".") eqn:E2; [exists k, names; auto|]. simpl.
  destruct (String.eqb c "..") eqn:E3.
  - apply String.eqb_eq in E3. subst c.
    destruct names as [|n names]; simpl.
    + destruct k as [|k]; simpl.
      * destruct r; [exists 0, []; auto | exists 1, []; repeat split; auto; discriminate].
      * exists (S (S k)), []. repeat split; auto.
        intros Hrt. specialize (Hr Hrt). discriminate.
    + inversion Hn as [|? ? Hp Hn']; subst.
      apply plain_inv in Hp as (_ & _ & Hp & _).
      apply String.eqb_neq in Hp. rewrite Hp.
      exists k, names. auto.
  - exists k, (c :: names). repeat split; auto.
    constructor; [|assumption].
    apply String.eqb_neq in E1, E2, E3. now apply plain_intro.
Qed.

Lemma fold_step_clean r cs st :
  Forall (fun c => slash_free c = true) cs -> clean_stack r st ->
  clean_stack r (fold_left (path.step r) cs st).
Proof.
  intros H. revert st. induction H as [|c cs Hc _ IH]; intros st Hst; simpl; [assumption|].
  apply IH. now apply step_clean.
Qed.

Lemma repeat_snoc {A} (x : A) k : repeat x k ++ [x] = x :: repeat x k.
Proof. induction k as [|k IH]; simpl; [reflexivity | now rewrite IH]. Qed.

Lemma rev_repeat {A} (x : A) k : rev (repeat x k) = repeat x k.
Proof.
  induction k as [|k IH]; simpl; [reflexivity|]. rewrite IH. apply repeat_snoc.
Qed.

Lemma normalize_clean r cs :
  Forall (fun c => slash_free c = true) cs -> clean_list r (path.normalize r cs).
Proof.
  intros H.
  destruct (fold_step_clean r cs [] H) as (k & names & E & Hn & Hr).
  { exists 0, []. auto. }
  unfold path.normalize. rewrite E, rev_app_distr, rev_repeat.
  exists k, (rev names). repeat split; auto.
  now apply List.Forall_rev.
Qed.

Lemma fold_step_dots k :
  fold_left (path.step false) (repeat ".." k) [] = repeat ".." k.
Proof.
  assert (G : forall j st, st = repeat ".." j ->
            fold_left (path.step false) (repeat ".." k) st = repeat ".." (k + j)).
  { induction k as [|k IH]; intros j st ->; [reflexivity|].
    cbn [repeat fold_left]. rewrite (IH (S j)).
    - replace (k + S j) with (S (k + j)) by lia. reflexivity.
    - destruct j; reflexivity. }
  rewrite (G 0 []) by reflexivity. now rewrite Nat.add_0_r.
Qed.

Lemma fold_step_plain r names st :
  Forall (fun n => os.plain n = true) names ->
  fold_left (path.step r) names st = rev names ++ st.
Proof.
  intros H. revert st. induction H as [|n names Hn _ IH]; intros st; simpl; [reflexivity|].
  rewrite step_plain by assumption. rewrite IH, <- app_assoc. reflexivity.
Qed.

(** Cleaning is idempotent on component lists. *)
Lemma normalize_clean_list r l : clean_list r l -> path.normalize r l = l.
Proof.
  intros (k & names & -> & Hn & Hr). unfold path.normalize.
  rewrite fold_left_app.
  assert (E : fold_left (path.step r) (repeat ".." k) [] = repeat ".." k).
  { destruct r; [rewrite (Hr eq_refl); reflexivity | apply fold_step_dots]. }
  rewrite E, fold_step_plain by assumption.
  now rewrite rev_app_distr, rev_involutive, rev_repeat.
Qed.

Lemma clean_list_snoc r l n :
  clean_list r l -> os.plain n = true -> clean_list r (l ++ [n]).
Proof.
  intros (k & names & -> & Hn & Hr) H. exists k, (names ++ [n]).
  rewrite app_assoc. repeat split; auto. apply Forall_app; split; auto.
Qed.

Lemma clean_list_components r l :
  clean_list r l -> Forall (fun c => slash_free c = true /\ c <> "") l.
Proof.
  intros (k & names & -> & Hn & _). apply Forall_app; split.
  - apply List.Forall_forall. intros x Hx. apply repeat_spec in Hx. subst.
    split; [reflexivity | discriminate].
  - eapply List.Forall_impl; [|exact Hn]. simpl. intros x Hx.
    apply plain_inv in Hx. tauto.
Qed.

Lemma rooted_app p s : p <> "" -> path.rooted (p +:+ s) = path.rooted p.
Proof. destruct p; [congruence | reflexivity]. Qed.

Lemma string_app_not_nil p s : p <> "" -> p +:+ s <> "".
Proof. destruct p; [congruence | discriminate]. Qed.

Lemma join_snoc_not_nil l n : n <> "" -> path.join (l ++ [n]) <> "".
Proof.
  intros Hn. destruct l as [|x l]; [exact Hn|].
  rewrite join_snoc by discriminate.
  destruct (path.join (x :: l)); discriminate.
Qed.

Lemma render_snoc_not_nil r l n : n <> "" -> path.render r (l ++ [n]) <> "".
Proof.
  intros Hn. unfold path.render. destruct r; [discriminate|].
  rewrite string_app_nil_l. now apply join_snoc_not_nil.
Qed.

Lemma render_snoc r l a n :
  path.render r ((l ++ [a]) ++ [n]) = path.render r (l ++ [a]) +:+ "/" +:+ n.
Proof.
  unfold path.render. rewrite join_snoc by (destruct l; discriminate).
  now rewrite string_app_assoc.
Qed.

Lemma Clean_snoc p n :
  os.plain n = true -> p <> "" ->
  path.Clean (p +:+ "/" +:+ n) =
  path.render (path.rooted p) (path.normalize (path.rooted p) (path.split p) ++ [n]).
Proof.
  intros Hn Hp. unfold path.Clean.
  destruct (String.eqb_spec (p +:+ "/" +:+ n) "") as [E|_];
    [now apply string_app_not_nil in E|].
  rewrite rooted_app by assumption.
  change ("/" +:+ n) with (String "/" n).
  rewrite split_app_slash, (split_slash_free n) by now apply plain_slash_free.
  rewrite normalize_snoc by assumption.
  destruct (String.eqb_spec
              (path.render (path.rooted p)
                 (path.normalize (path.rooted p) (path.split p) ++ [n])) "") as [E|_];
    [|reflexivity].
  apply render_snoc_not_nil in E; [contradiction|].
  apply plain_inv in Hn. tauto.
Qed.

Lemma Clean_plain n : os.plain n = true -> path.Clean n = n.
Proof.
  intros Hn. pose proof (plain_inv n Hn) as (H1 & _ & _ & Hs).
  unfold path.Clean. apply String.eqb_neq in H1 as H1'. rewrite H1'.
  assert (Hr : path.rooted n = false).
  { destruct n as [|c n]; [reflexivity|]. unfold slash_free in Hs. simpl in *.
    apply andb_true_iff in Hs as [Hc _]. now apply negb_true_iff in Hc. }
  rewrite Hr, (split_slash_free n Hs).
  change [n] with ([] ++ [n]). rewrite normalize_snoc by assumption.
  unfold path.normalize, path.render. simpl. rewrite string_app_nil_l.
  now rewrite H1'.
Qed.

Lemma Join_pair p n :
  p <> "" -> n <> "" -> path.Join [p; n] = path.Clean (p +:+ "/" +:+ n).
Proof.
  intros Hp Hn. unfold path.Join. simpl.
  apply String.eqb_neq in Hp, Hn. now rewrite Hp, Hn.
Qed.

Lemma Join_triple p d n :
  p <> "" -> d <> "" -> n <> "" ->
  path.Join [p; d; n] = path.Clean ((p +:+ "/" +:+ d) +:+ "/" +:+ n).
Proof.
  intros Hp Hd Hn. unfold path.Join. simpl.
  apply String.eqb_neq in Hp, Hd, Hn. rewrite Hp, Hd, Hn. simpl.
  now rewrite !string_app_assoc.
Qed.

(** [path.Join(base, a)] is a cleaned path that ends in [a]. *)
Lemma Join_clean_path base a : os.plain a = true -> clean_path (path.Join [base; a]).
Proof.
  intros Ha. pose proof (plain_inv a Ha) as (H1 & _).
  destruct (String.eqb_spec base "") as [->|Hb].
  - unfold path.Join. simpl. apply String.eqb_neq in H1 as H1'. rewrite H1'. simpl.
    rewrite Clean_plain by assumption.
    exists false, [], a. repeat split; auto.
    exists 0, []. auto.
  - rewrite Join_pair, Clean_snoc by assumption.
    eexists _, _, a. repeat split; eauto.
    apply normalize_clean, split_components.
Qed.

Lemma clean_path_not_nil q : clean_path q -> q <> "".
Proof.
  intros (r & l & a & _ & Ha & ->). apply render_snoc_not_nil.
  apply plain_inv in Ha. tauto.
Qed.

Lemma rooted_join_clean l :
  l <> [] -> Forall (fun c => slash_free c = true /\ c <> "") l ->
  path.rooted (path.join l) = false.
Proof.
  intros Hl H. destruct l as [|c l]; [congruence|].
  inversion H as [|? ? [Hs Hc] _]; subst.
  destruct c as [|x c]; [congruence|].
  assert (Hx : Ascii.eqb x "/" = false).
  { unfold slash_free in Hs. simpl in Hs. apply andb_true_iff in Hs as [Hx _].
    now apply negb_true_iff in Hx. }
  destruct l; [exact Hx|]. rewrite join_cons, string_app_cons. exact Hx.
Qed.

Lemma clean_path_shape r l a :
  clean_list r l -> os.plain a = true ->
  path.rooted (path.render r (l ++ [a])) = r /\
  path.normalize r (path.split (path.render r (l ++ [a]))) = l ++ [a].
Proof.
  intros Hl Ha.
  pose proof (clean_list_snoc r l a Hl Ha) as Hla.
  pose proof (clean_list_components r _ Hla) as Hc.
  assert (Hs : Forall (fun c => slash_free c = true) (l ++ [a])).
  { eapply List.Forall_impl; [|exact Hc]. simpl. tauto. }
  assert (Hne : l ++ [a] <> []) by (destruct l; discriminate).
  unfold path.render. destruct r.
  - split; [reflexivity|].
    change ("/" +:+ path.join (l ++ [a])) with ("" +:+ String "/" (path.join (l ++ [a]))).
    rewrite split_app_slash, split_join by assumption.
    change (path.split "" ++ (l ++ [a])) with ("" :: (l ++ [a])).
    unfold path.normalize. simpl fold_left.
    now apply normalize_clean_list.
  - rewrite string_app_nil_l. split; [now apply rooted_join_clean|].
    rewrite split_join by assumption. now apply normalize_clean_list.
Qed.

(** Joining a proper name to a cleaned path appends it. *)
Lemma Join_child q n :
  clean_path q -> os.plain n = true ->
  path.Join [q; n] = q +:+ "/" +:+ n /\ clean_path (q +:+ "/" +:+ n).
Proof.
  intros Hq Hn. pose proof (clean_path_not_nil q Hq) as Hq0.
  pose proof (plain_inv n Hn) as (Hn0 & _).
  destruct Hq as (r & l & a & Hl & Ha & ->).
  destruct (clean_path_shape r l a Hl Ha) as [Hr Hnorm].
  rewrite Join_pair, Clean_snoc, Hr, Hnorm, render_snoc by assumption.
  split; [reflexivity|].
  rewrite <- render_snoc. exists r, (l ++ [a]), n. repeat split; auto.
  now apply clean_list_snoc.
Qed.

Lemma Join_grandchild q d n :
  clean_path q -> os.plain d = true -> os.plain n = true ->
  path.Join [q; d; n] = (q +:+ "/" +:+ d) +:+ "/" +:+ n.
Proof.
  intros Hq Hd Hn.
  destruct (Join_child q d Hq Hd) as [_ Hqd].
  destruct (Join_child _ n Hqd Hn) as [E _].
  pose proof (plain_inv d Hd) as (Hd0 & _).
  pose proof (plain_inv n Hn) as (Hn0 & _).
  rewrite Join_triple by (assumption || now apply clean_path_not_nil).
  rewrite <- Join_pair by (assumption || now apply clean_path_not_nil).
  exact E.
Qed.

(** The key of a page: category and file name joined by a slash. *)
Lemma Join_key d n :
  os.plain d = true -> os.plain n = true -> path.Join [d; n] = d +:+ "/" +:+ n.
Proof.
  intros Hd Hn. apply Join_child; [|assumption].
  exists false, [], d. repeat split; auto.
  exists 0, []. auto.
Qed.

Lemma Base_child p n :
  slash_free n = true -> n <> "" -> filepath.Base (p +:+ "/" +:+ n) = n.
Proof.
  intros Hs Hn. unfold filepath.Base.
  destruct (String.eqb_spec (p +:+ "/" +:+ n) "") as [E|_].
  { destruct p; discriminate. }
  change ("/" +:+ n) with (String "/" n).
  rewrite split_app_slash, (split_slash_free n Hs), rev_app_distr. simpl.
  apply String.eqb_neq in Hn. now rewrite Hn.
Qed.

(** Resolution of a path that ends in a proper name: resolve what comes
    before, then take the entry. *)
Lemma walk_snoc anc cur cs n :
  os.plain n = true ->
  os.walk anc cur (cs ++ [n]) =
  match os.walk anc cur cs with Some x => os.child n x | None => None end.
Proof.
  intros Hn. pose proof (plain_inv n Hn) as (H1 & H2 & H3 & _).
  apply String.eqb_neq in H1, H2, H3.
  revert anc cur. induction cs as [|c cs IH]; intros anc cur; simpl.
  - destruct cur as [t|l es]; [reflexivity|]. rewrite H1, H2, H3. simpl.
    destruct (os.lookup_entry n es); reflexivity.
  - destruct cur as [t|l es]; [reflexivity|].
    destruct (String.eqb c "" || String.eqb c "."); [apply IH|].
    destruct (String.eqb c "..").
    + destruct anc; apply IH.
    + destruct (os.lookup_entry c es); [apply IH | reflexivity].
Qed.

Lemma resolve_child fs q n :
  q <> "" -> os.plain n = true ->
  os.resolve fs (q +:+ "/" +:+ n) =
  match os.resolve fs q with Some x => os.child n x | None => None end.
Proof.
  intros Hq Hn. unfold os.resolve.
  destruct (String.eqb_spec (q +:+ "/" +:+ n) "") as [E|_];
    [now apply string_app_not_nil in E|].
  apply String.eqb_neq in Hq. rewrite Hq.
  change ("/" +:+ n) with (String "/" n).
  rewrite split_app_slash, (split_slash_free n) by now apply plain_slash_free.
  now apply walk_snoc.
Qed.

(** Magic characters: cleaning and joining introduce none. *)
Lemma hasMeta_app a b :
  filepath.hasMeta (a +:+ b) = filepath.hasMeta a || filepath.hasMeta b.
Proof.
  unfold filepath.hasMeta. induction a as [|c a IH]; [reflexivity|].
  rewrite string_app_cons. simpl. rewrite IH. now rewrite orb_assoc.
Qed.

Lemma hasMeta_join l :
  Forall (fun c => filepath.hasMeta c = false) l -> filepath.hasMeta (path.join l) = false.
Proof.
  induction 1 as [|x l Hx Hl IH]; [reflexivity|].
  destruct l as [|y l]; [exact Hx|].
  rewrite join_cons, !hasMeta_app, Hx, IH. reflexivity.
Qed.

Lemma hasMeta_render r l :
  Forall (fun c => filepath.hasMeta c = false) l -> filepath.hasMeta (path.render r l) = false.
Proof.
  intros H. unfold path.render. rewrite hasMeta_app, hasMeta_join by assumption.
  now destruct r.
Qed.

Lemma hasMeta_split s :
  filepath.hasMeta s = false -> Forall (fun c => filepath.hasMeta c = false) (path.split s).
Proof.
  unfold filepath.hasMeta. induction s as [|c s IH]; simpl; [repeat constructor|].
  rewrite orb_false_iff. intros [Hc Hs]. specialize (IH Hs).
  destruct (Ascii.eqb c "/"); [constructor; [reflexivity | exact IH]|].
  destruct (path.split s) as [|x xs].
  - repeat constructor. simpl. now rewrite Hc.
  - inversion IH; subst. constructor; [|assumption]. simpl. now rewrite Hc.
Qed.

Lemma hasMeta_normalize r cs :
  Forall (fun c => filepath.hasMeta c = false) cs ->
  Forall (fun c => filepath.hasMeta c = false) (path.normalize r cs).
Proof.
  intros H. unfold path.normalize. apply List.Forall_rev.
  assert (G : forall st, Forall (fun c => filepath.hasMeta c = false) st ->
            Forall (fun c => filepath.hasMeta c = false) (fold_left (path.step r) cs st)).
  { induction H as [|c cs Hc _ IH]; intros st Hst; simpl; [assumption|].
    apply IH. unfold path.step.
    destruct (String.eqb c "" || String.eqb c "."); [assumption|].
    destruct (String.eqb c "..").
    - destruct st as [|top rest]; [destruct r; repeat constructor; assumption|].
      destruct (String.eqb top ".."); [now constructor | now inversion Hst].
    - now constructor. }
  apply G. constructor.
Qed.

Lemma hasMeta_Join base a :
  filepath.hasMeta base = false -> os.plain a = true -> filepath.hasMeta a = false ->
  filepath.hasMeta (path.Join [base; a]) = false.
Proof.
  intros Hb Ha Hm. pose proof (plain_inv a Ha) as (H1 & _).
  destruct (String.eqb_spec base "") as [->|Hb0].
  - unfold path.Join. simpl. apply String.eqb_neq in H1. rewrite H1. simpl.
    now rewrite Clean_plain.
  - rewrite Join_pair, Clean_snoc by assumption.
    apply hasMeta_render, Forall_app. split; [|now repeat constructor].
    now apply hasMeta_normalize, hasMeta_split.
Qed.

Lemma Join_base_triple base d n :
  os.plain d = true -> os.plain n = true ->
  path.Join [base; d; n] = path.Join [base; d] +:+ "/" +:+ n.
Proof.
  intros Hd Hn.
  pose proof (Join_clean_path base d Hd) as Hq.
  destruct (Join_child _ n Hq Hn) as [E _]. rewrite <- E.
  pose proof (plain_inv d Hd) as (Hd0 & _).
  pose proof (plain_inv n Hn) as (Hn0 & _).
  destruct (String.eqb_spec base "") as [->|Hb0].
  - unfold path.Join at 1 3. simpl.
    apply String.eqb_neq in Hd0 as Hd1. apply String.eqb_neq in Hn0 as Hn1.
    rewrite Hd1, Hn1. simpl. rewrite (Clean_plain d Hd).
    symmetry. now apply Join_pair.
  - rewrite Join_triple by assumption.
    rewrite E. rewrite Clean_snoc; [|assumption|now apply string_app_not_nil].
    rewrite rooted_app by assumption.
    change ("/" +:+ d) with (String "/" d).
    rewrite split_app_slash, (split_slash_free d) by now apply plain_slash_free.
    rewrite normalize_snoc, render_snoc by assumption.
    rewrite Join_pair, Clean_snoc by assumption. reflexivity.
Qed.

Lemma Split_child x n :
  slash_free n = true -> filepath.Split (x +:+ "/" +:+ n) = (x +:+ "/", n).
Proof.
  intros Hn.
  assert (E0 : filepath.Split n = ("", n)).
  { unfold slash_free in Hn. induction n as [|c n IH]; [reflexivity|]. simpl in *.
    apply andb_true_iff in Hn as [Hc Hn]. rewrite (IH Hn). simpl.
    apply negb_true_iff in Hc. now rewrite Hc. }
  induction x as [|c x IH].
  - change ("" +:+ "/" +:+ n) with (String "/" n). simpl. now rewrite E0.
  - rewrite string_app_cons. simpl. rewrite IH.
    destruct (String.eqb_spec (x +:+ "/") "") as [E|_]; [|reflexivity].
    destruct x; discriminate.
Qed.

Lemma chop_slash x : filepath.chop (x +:+ "/") = x.
Proof.
  induction x as [|c x IH]; [reflexivity|].
  rewrite string_app_cons. simpl. rewrite IH.
  destruct (x +:+ "/") eqn:E; [destruct x; discriminate | reflexivity].
Qed.

Lemma cleanGlobPath_slash x : x <> "" -> filepath.cleanGlobPath (x +:+ "/") = x.
Proof.
  intros Hx. unfold filepath.cleanGlobPath.
  destruct (String.eqb_spec (x +:+ "/") "") as [E|_]; [destruct x; discriminate|].
  destruct (String.eqb_spec (x +:+ "/") "/") as [E|_]; [|apply chop_slash].
  destruct x as [|c x]; [congruence|]. destruct x; discriminate.
Qed.

(** The pattern [<base>/<d>/*.html] lists directory [<base>/<d>]; a
    pattern without magic characters names the file itself. *)
Lemma Glob_star_html fs base d :
  filepath.hasMeta base = false -> os.plain d = true -> filepath.hasMeta d = false ->
  filepath.Glob fs (path.Join [base; d; "*.html"]) =
  filepath.glob fs (path.Join [base; d]) "*.html".
Proof.
  intros Hb Hd Hm. unfold filepath.Glob.
  rewrite (Join_base_triple base d "*.html") by (assumption || reflexivity).
  rewrite !hasMeta_app. replace (filepath.hasMeta "*.html") with true by reflexivity.
  rewrite !orb_true_r. simpl negb. cbv iota.
  rewrite Split_child by reflexivity.
  rewrite cleanGlobPath_slash by (apply clean_path_not_nil; now apply Join_clean_path).
  now rewrite hasMeta_Join.
Qed.

Lemma Glob_missing_dir fs base d :
  filepath.hasMeta base = false -> os.plain d = true -> filepath.hasMeta d = false ->
  os.resolve fs (path.Join [base; d]) = None ->
  filepath.Glob fs (path.Join [base; d; "*.html"]) = Ok [].
Proof.
  intros Hb Hd Hm Hr. rewrite Glob_star_html by assumption.
  unfold filepath.glob. now rewrite Hr.
Qed.

Lemma Glob_literal fs base a :
  filepath.hasMeta base = false -> os.plain a = true -> filepath.hasMeta a = false ->
  filepath.Glob fs (path.Join [base; a]) =
  if os.Lstat fs (path.Join [base; a]) then Ok [path.Join [base; a]] else Ok [].
Proof.
  intros Hb Ha Hm. unfold filepath.Glob. now rewrite hasMeta_Join.
Qed.

End PathFacts.

(** ** The heap *)

Section Refinement.
Context {L : TemplateLang}.

Import template gotemp.

Lemma deref_lookup (h : Heap) a n : h !! a = Some n -> deref h a = n.
Proof. unfold deref. now intros ->. Qed.

Lemma lookup_alloc (h : Heap) n : (h ++ [n]) !! length h = Some n.
Proof. rewrite lookup_app_r by lia. now rewrite Nat.sub_diag. Qed.

Lemma insert_alloc (h : Heap) n m : <[length h := m]> (h ++ [n]) = h ++ [m].
Proof.
  rewrite insert_app_r_alt by lia. now rewrite Nat.sub_diag.
Qed.

Lemma fresh_ns_eta (n : nameSpace) : escaped n = false -> n = fresh_ns (set n).
Proof. destruct n as [s e]. simpl. now intros ->. Qed.

(** *** Parsing into a set *)

Lemma parse_each_spec fs t filenames :
  forall (h : Heap) s,
    h !! ns t = Some (fresh_ns s) ->
    match parse_all fs filenames s with
    | Some s' => parse_each fs t filenames h = (Ok t, <[ns t := fresh_ns s']> h)
    | None => exists e h', parse_each fs t filenames h = (Err e, h')
    end.
Proof.
  induction filenames as [|f rest IH]; intros h s Hs; simpl.
  - unfold ret. now rewrite list_insert_id.
  - unfold bind, lift. destruct (os.ReadFile fs f) as [text|e]; [|eauto].
    unfold parse_into. rewrite (deref_lookup _ _ _ Hs). simpl.
    destruct (Parse (filepath.Base f) text) as [trees|]; [|eauto].
    pose proof (lookup_lt_Some _ _ _ Hs) as Hlt.
    specialize (IH (<[ns t := fresh_ns (add_trees trees s)]> h) (add_trees trees s)).
    rewrite list_lookup_insert_eq in IH by assumption. specialize (IH eq_refl).
    destruct (parse_all fs rest (add_trees trees s)) as [s'|]; [|exact IH].
    rewrite list_insert_insert_eq in IH. exact IH.
Qed.

Lemma ParseFiles_spec fs t filenames (h : Heap) s :
  filenames <> [] -> h !! ns t = Some (fresh_ns s) ->
  match parse_all fs filenames s with
  | Some s' => ParseFiles fs t filenames h = (Ok t, <[ns t := fresh_ns s']> h)
  | None => exists e h', ParseFiles fs t filenames h = (Err e, h')
  end.
Proof.
  intros Hne Hs. unfold ParseFiles, parseFiles.
  rewrite (deref_lookup _ _ _ Hs). simpl.
  destruct filenames as [|f rest]; [congruence|].
  now apply parse_each_spec.
Qed.

Lemma ParseGlob_into_spec fs t pattern (h : Heap) s :
  h !! ns t = Some (fresh_ns s) ->
  match glob_set fs pattern s with
  | Some s' => ParseGlob_into fs t pattern h = (Ok t, <[ns t := fresh_ns s']> h)
  | None => exists e h', ParseGlob_into fs t pattern h = (Err e, h')
  end.
Proof.
  intros Hs. unfold ParseGlob_into, parseGlob, glob_set.
  rewrite (deref_lookup _ _ _ Hs). simpl.
  destruct (filepath.Glob fs pattern) as [[|f rest]|e]; [eauto| |eauto].
  now apply (ParseFiles_spec fs t (f :: rest)).
Qed.

Lemma ParseGlob_spec fs pattern (h : Heap) :
  match glob_set fs pattern ∅ with
  | Some s' =>
      ParseGlob fs pattern h =
      (Ok {| ns := length h; Name := glob_name fs pattern |}, h ++ [fresh_ns s'])
  | None => exists e h', ParseGlob fs pattern h = (Err e, h')
  end.
Proof.
  unfold ParseGlob, parseGlob, glob_set, glob_name.
  destruct (filepath.Glob fs pattern) as [[|f rest]|e]; [eauto| |eauto].
  pose proof (parse_each_spec fs {| ns := length h; Name := filepath.Base f |}
                (f :: rest) (h ++ [empty_ns]) ∅ (lookup_alloc h _)) as H.
  simpl parse_each in H. simpl parseFiles. unfold bind, lift, template.New in *.
  simpl parse_all in *.
  destruct (os.ReadFile fs f) as [text|e]; [|eauto].
  destruct (Parse (filepath.Base f) text) as [trees|].
  - destruct (parse_all fs rest (add_trees trees ∅)) as [s'|].
    + rewrite H. simpl. now rewrite insert_alloc.
    + exact H.
  - exact H.
Qed.

(** *** Deriving a set: clone, then parse into the clone *)

Lemma clone_spec t (h : Heap) s :
  h !! ns t = Some (fresh_ns s) ->
  clone t h = (Ok {| ns := length h; Name := Name t |}, h ++ [fresh_ns s]).
Proof.
  intros Hs. unfold clone, wrap, Clone. now rewrite (deref_lookup _ _ _ Hs).
Qed.

Lemma bind_wrap_clone msg t (h : Heap) s A (k : Template -> M A) :
  h !! ns t = Some (fresh_ns s) ->
  bind (wrap msg (clone t)) k h = k {| ns := length h; Name := Name t |} (h ++ [fresh_ns s]).
Proof.
  intros Hs. unfold bind, wrap at 1. now rewrite (clone_spec t h s Hs).
Qed.

Lemma loadRoot_spec fs tc (h : Heap) :
  match glob_set fs (path.Join [basePath tc; "root.html"]) ∅ with
  | Some s' =>
      loadRoot fs tc h =
      (Ok {| ns := length h; Name := glob_name fs (path.Join [basePath tc; "root.html"]) |},
       h ++ [fresh_ns s'])
  | None => exists e h', loadRoot fs tc h = (Err e, h')
  end.
Proof. apply ParseGlob_spec. Qed.

Lemma derive_glob_spec fs msg t pattern (h : Heap) s :
  h !! ns t = Some (fresh_ns s) ->
  match glob_set fs pattern s with
  | Some s' =>
      bind (wrap msg (clone t)) (fun c => ParseGlob_into fs c pattern) h =
      (Ok {| ns := length h; Name := Name t |}, h ++ [fresh_ns s'])
  | None =>
      exists e h', bind (wrap msg (clone t)) (fun c => ParseGlob_into fs c pattern) h = (Err e, h')
  end.
Proof.
  intros Hs.
  pose proof (ParseGlob_into_spec fs {| ns := length h; Name := Name t |} pattern
                (h ++ [fresh_ns s]) s (lookup_alloc h _)) as H.
  rewrite (bind_wrap_clone msg t h s _ _ Hs).
  destruct (glob_set fs pattern s) as [s'|]; [|exact H].
  rewrite H. simpl. now rewrite insert_alloc.
Qed.

Lemma loadPartials_spec fs tc root (h : Heap) s :
  h !! ns root = Some (fresh_ns s) ->
  match glob_set fs (path.Join [basePath tc; "partials"; "*.html"]) s with
  | Some s' =>
      loadPartials fs tc root h =
      (Ok {| ns := length h; Name := Name root |}, h ++ [fresh_ns s'])
  | None => exists e h', loadPartials fs tc root h = (Err e, h')
  end.
Proof. apply derive_glob_spec. Qed.

Lemma loadLayouts_spec fs tc partials (h : Heap) s :
  h !! ns partials = Some (fresh_ns s) ->
  match glob_set fs (path.Join [basePath tc; "layouts"; "*.html"]) s with
  | Some s' =>
      loadLayouts fs tc partials h =
      (Ok {| ns := length h; Name := Name partials |}, h ++ [fresh_ns s'])
  | None => exists e h', loadLayouts fs tc partials h = (Err e, h')
  end.
Proof. apply derive_glob_spec. Qed.

(** One page: clone the layout set and parse the page file into the
    clone. *)
Lemma compile_page_spec fs msg1 msg2 layouts name (h : Heap) s :
  h !! ns layouts = Some (fresh_ns s) ->
  forall A (k : Template -> M A),
  match parse_all fs [name] s with
  | Some s' =>
      bind (wrap msg1 (clone layouts)) (fun layout =>
      bind (wrap msg2 (ParseFiles fs layout [name])) k) h =
      k {| ns := length h; Name := Name layouts |} (h ++ [fresh_ns s'])
  | None =>
      exists e h',
      bind (wrap msg1 (clone layouts)) (fun layout =>
      bind (wrap msg2 (ParseFiles fs layout [name])) k) h = (Err e, h')
  end.
Proof.
  intros Hs A k.
  pose proof (ParseFiles_spec fs {| ns := length h; Name := Name layouts |} [name]
                (h ++ [fresh_ns s]) s ltac:(discriminate) (lookup_alloc h _)) as H.
  rewrite (bind_wrap_clone msg1 layouts h s _ _ Hs).
  unfold bind, wrap.
  destruct (parse_all fs [name] s) as [s'|].
  - rewrite H. simpl. now rewrite insert_alloc.
  - destruct H as (e & h' & ->). eauto.
Qed.

(** *** The loops of [loadPages] *)

Lemma loadFiles_spec fs pagesPath dirName layouts s files :
  forall pages (h : Heap),
    h !! ns layouts = Some (fresh_ns s) ->
    match compile_files fs pagesPath dirName s files with
    | Some ps =>
        loadFiles fs pagesPath dirName layouts files pages h =
        (Ok (install (Name layouts) (length h) ps pages),
         h ++ map (fun p => fresh_ns (snd p)) ps)
    | None =>
        exists e h', loadFiles fs pagesPath dirName layouts files pages h = (Err e, h')
    end.
Proof.
  induction files as [|file files IH]; intros pages h Hs;
    cbn [compile_files loadFiles].
  - unfold ret. simpl. now rewrite app_nil_r.
  - destruct (os.IsDir file); cbn [negb]; cbv iota; [now apply IH|].
    pose proof (compile_page_spec fs "failed to clone layout template"
      ("failed to parse page template " +:+ path.Join [pagesPath; dirName; os.Name file])
      layouts (path.Join [pagesPath; dirName; os.Name file]) h s Hs _
      (fun t => loadFiles fs pagesPath dirName layouts files
                  (<[path.Join [dirName; os.Name file] := t]> pages))) as H.
    destruct (parse_all fs [path.Join [pagesPath; dirName; os.Name file]] s) as [s'|];
      [|exact H].
    rewrite H. clear H.
    specialize (IH (<[path.Join [dirName; os.Name file] :=
                        {| ns := length h; Name := Name layouts |}]> pages)
                  (h ++ [fresh_ns s'])).
    rewrite lookup_app_l in IH by (eapply lookup_lt_Some; eassumption).
    specialize (IH Hs).
    destruct (compile_files fs pagesPath dirName s files) as [ps|]; [|exact IH].
    rewrite IH. rewrite length_app, Nat.add_1_r. simpl.
    now rewrite <- app_assoc.
Qed.

Lemma install_app name n ps qs pages :
  install name n (ps ++ qs) pages = install name (n + length ps) qs (install name n ps pages).
Proof.
  revert n pages. induction ps as [|[key s] ps IH]; intros n pages; simpl.
  - now rewrite Nat.add_0_r.
  - rewrite IH. f_equal. lia.
Qed.

Lemma loadDirs_spec fs pagesPath layouts s entries :
  forall pages (h : Heap),
    h !! ns layouts = Some (fresh_ns s) ->
    match compile_dirs fs pagesPath s entries with
    | Some ps =>
        loadDirs fs pagesPath layouts entries pages h =
        (Ok (install (Name layouts) (length h) ps pages),
         h ++ map (fun p => fresh_ns (snd p)) ps)
    | None =>
        exists e h', loadDirs fs pagesPath layouts entries pages h = (Err e, h')
    end.
Proof.
  induction entries as [|entry entries IH]; intros pages h Hs;
    cbn [compile_dirs loadDirs].
  - unfold ret. simpl. now rewrite app_nil_r.
  - unfold bind at 1, wrap, lift.
    destruct (os.ReadDir fs (path.Join [pagesPath; os.Name entry])) as [files|e]; [|eauto].
    unfold bind.
    pose proof (loadFiles_spec fs pagesPath (os.Name entry) layouts s files pages h Hs) as H.
    destruct (compile_files fs pagesPath (os.Name entry) s files) as [ps|].
    + rewrite H. clear H.
      specialize (IH (install (Name layouts) (length h) ps pages)
                    (h ++ map (fun p => fresh_ns (snd p)) ps)).
      rewrite lookup_app_l in IH by (eapply lookup_lt_Some; eassumption).
      specialize (IH Hs).
      destruct (compile_dirs fs pagesPath s entries) as [qs|]; [|exact IH].
      rewrite IH. rewrite length_app, length_map, install_app, map_app, app_assoc.
      reflexivity.
    + destruct H as (e & h' & ->). eauto.
Qed.

Lemma bind_wrap_Ok {A B} msg (m : M A) (k : A -> M B) (h h1 : Heap) a :
  m h = (Ok a, h1) -> bind (wrap msg m) k h = k a h1.
Proof. intros E. unfold bind, wrap. now rewrite E. Qed.

Lemma bind_wrap_Err {A B} msg (m : M A) (k : A -> M B) (h h1 : Heap) e :
  m h = (Err e, h1) -> bind (wrap msg m) k h = (Err (Wrapf msg e), h1).
Proof. intros E. unfold bind, wrap. now rewrite E. Qed.

(** *** [New] computes the summary *)

Lemma New_spec fs base (h : Heap) :
  match build fs base with
  | Some b => New fs base h = (Ok (built_engine h base b), built_heap h b)
  | None => exists e h', New fs base h = (Err e, h')
  end.
Proof.
  unfold New, loadPages, build. cbn [basePath].
  pose proof (loadRoot_spec fs {| basePath := base; pages := ∅ |} h) as HR.
  cbn [basePath] in HR.
  destruct (glob_set fs (path.Join [base; "root.html"]) ∅) as [rs|];
    [|destruct HR as (e & h' & HR); rewrite (bind_wrap_Err _ _ _ _ _ _ HR); eauto].
  rewrite (bind_wrap_Ok _ _ _ _ _ _ HR). clear HR.
  set (rname := glob_name fs (path.Join [base; "root.html"])).
  pose proof (loadPartials_spec fs {| basePath := base; pages := ∅ |}
                {| ns := length h; Name := rname |} (h ++ [fresh_ns rs]) rs
                (lookup_alloc h _)) as HP.
  cbn [basePath Name] in HP.
  destruct (glob_set fs (path.Join [base; "partials"; "*.html"]) rs) as [ps|];
    [|destruct HP as (e & h' & HP); rewrite (bind_wrap_Err _ _ _ _ _ _ HP); eauto].
  rewrite (bind_wrap_Ok _ _ _ _ _ _ HP). clear HP.
  pose proof (loadLayouts_spec fs {| basePath := base; pages := ∅ |}
                {| ns := length (h ++ [fresh_ns rs]); Name := rname |}
                ((h ++ [fresh_ns rs]) ++ [fresh_ns ps]) ps
                (lookup_alloc _ _)) as HL.
  cbn [basePath Name] in HL.
  destruct (glob_set fs (path.Join [base; "layouts"; "*.html"]) ps) as [ls|];
    [|destruct HL as (e & h' & HL); rewrite (bind_wrap_Err _ _ _ _ _ _ HL); eauto].
  rewrite (bind_wrap_Ok _ _ _ _ _ _ HL). clear HL.
  unfold bind at 1, wrap, lift.
  destruct (os.ReadDir fs (path.Join [base; "pages"])) as [entries|e]; [|eauto].
  pose proof (loadDirs_spec fs (path.Join [base; "pages"])
                {| ns := length ((h ++ [fresh_ns rs]) ++ [fresh_ns ps]); Name := rname |}
                ls entries ∅ (((h ++ [fresh_ns rs]) ++ [fresh_ns ps]) ++ [fresh_ns ls])
                (lookup_alloc _ _)) as HD.
  cbn [Name] in HD. unfold bind, ret.
  destruct (compile_dirs fs (path.Join [base; "pages"]) ls entries) as [pgs|];
    [|destruct HD as (e & h' & ->); eauto].
  rewrite HD. unfold built_engine, built_heap. cbn [root_name page_sets root_set
    partials_set layouts_set].
  rewrite !length_app. cbn [length].
  replace (length h + 1 + 1 + 1) with (length h + 3) by lia.
  now rewrite <- !app_assoc.
Qed.

End Refinement.

(** ** Rendering *)

Section Rendering.
Context {L : TemplateLang}.

Import template gotemp.






(** C1. Rendering a page key that is not in the registry returns the error
    "page template not found: <key>", which names the key, and leaves the
    destination as it was, whatever the layout name and the data; the heap
    of template sets is untouched as well.  This holds for every engine,
    those built by [New] included. *)
Theorem RenderPage_unknown_page tc w layout page data (h : Heap) :
  pages tc !! page = None ->
  RenderPage tc w layout page data h =
  ((Some (Errorf ("page template not found: " +:+ page)), w), h).
Proof. intros H. unfold RenderPage. now rewrite H. Qed.

(** C5. For a page key in the registry, a layout name that names no
    template of the page's set makes [RenderPage] return the template
    engine's error that the name is undefined, whatever the data; nothing
    is written. *)
Theorem RenderPage_unknown_layout tc w layout page data (h : Heap) t :
  pages tc !! page = Some t ->
  set (deref h (ns t)) !! layout = None ->
  fst (RenderPage tc w layout page data h) = (Some (ErrUndefined layout), w).
Proof.
  intros Hp Hl. unfold RenderPage, ExecuteTemplate. now rewrite Hp, Hl.
Qed.



End Rendering.

Lemma RenderPage_unknown_page_witness :
  gotemp.pages Sample.engine !! "nonexistent/page.html" = None
  /\ gotemp.RenderPage (L := Literal.lang) Sample.engine "" "app.html"
       "nonexistent/page.html" None Sample.heap =
     ((Some (Errorf "page template not found: nonexistent/page.html"), ""), Sample.heap).
Proof.
  split; [vm_compute; reflexivity|].
  apply (RenderPage_unknown_page (L := Literal.lang)). vm_compute. reflexivity.
Defined.

Lemma RenderPage_unknown_layout_witness :
  gotemp.pages Sample.engine !! "home/index.html"
  = Some {| template.ns := 3; template.Name := "root.html" |}
  /\ template.set (template.deref Sample.heap 3) !! "nonexistent_layout" = None
  /\ fst (gotemp.RenderPage (L := Literal.lang) Sample.engine "" "nonexistent_layout"
            "home/index.html" None Sample.heap) =
     (Some (ErrUndefined "nonexistent_layout"), "").
Proof.
  split; [vm_compute; reflexivity|]. split; [vm_compute; reflexivity|].
  apply (RenderPage_unknown_layout (L := Literal.lang) Sample.engine "" "nonexistent_layout"
           "home/index.html" None Sample.heap
           {| template.ns := 3; template.Name := "root.html" |});
    vm_compute; reflexivity.
Defined.

(** The sample engine renders its one page under the layout's name. *)
Example RenderPage_home :
  fst (gotemp.RenderPage (L := Literal.lang) Sample.engine "" "app.html"
         "home/index.html" None Sample.heap)
  = (None, "<main>app_layout</main>").
Proof. vm_compute. reflexivity. Qed.

Example RenderPage_home_with_data :
  fst (gotemp.RenderPage (L := Literal.lang) Sample.engine "" "app.html"
         "home/index.html" (Some [("Title", "Test Page"); ("Body", "Test content")])
         Sample.heap)
  = (None, "<main>app_layout</main>").
Proof. vm_compute. reflexivity. Qed.


(** ** Construction *)

Section Construction.
Context {L : TemplateLang}.

Import template gotemp.

Lemma is_Some_None_false {A} : is_Some (@None A) <-> false = true.
Proof. split; [intros [x Hx]; discriminate | discriminate]. Qed.

Lemma is_Some_Some_true {A} (a : A) : is_Some (Some a) <-> true = true.
Proof. split; eauto. Qed.

(** *** When the summary is defined *)

Lemma parse_all_ok fs filenames :
  forall s, is_Some (parse_all fs filenames s) <-> forallb (file_ok fs) filenames = true.
Proof.
  induction filenames as [|f rest IH]; intros s; simpl.
  - apply is_Some_Some_true.
  - unfold file_ok at 1. destruct (os.ReadFile fs f) as [text|e]; simpl;
      [|apply is_Some_None_false].
    destruct (Parse (filepath.Base f) text) as [trees|]; simpl;
      [apply IH | apply is_Some_None_false].
Qed.

Lemma glob_set_ok fs pattern s :
  is_Some (glob_set fs pattern s) <-> glob_ok fs pattern = true.
Proof.
  unfold glob_set, glob_ok.
  destruct (filepath.Glob fs pattern) as [[|f rest]|e];
    [apply is_Some_None_false | apply parse_all_ok | apply is_Some_None_false].
Qed.

Lemma compile_files_ok fs pagesPath dirName ls files :
  is_Some (compile_files fs pagesPath dirName ls files) <->
  forallb (fun file =>
             os.IsDir file || file_ok fs (path.Join [pagesPath; dirName; os.Name file]))
    files = true.
Proof.
  induction files as [|file files IH]; cbn [compile_files forallb].
  - apply is_Some_Some_true.
  - destruct (os.IsDir file); cbn [negb orb andb]; cbv iota; [exact IH|].
    pose proof (parse_all_ok fs [path.Join [pagesPath; dirName; os.Name file]] ls) as H.
    cbn [forallb] in H. rewrite andb_true_r in H.
    destruct (parse_all fs [path.Join [pagesPath; dirName; os.Name file]] ls) as [s'|].
    + destruct H as [H _]. rewrite (H ltac:(eauto)). cbn [andb].
      destruct (compile_files fs pagesPath dirName ls files).
      * split; [intros _; apply IH; eauto | eauto].
      * rewrite <- IH. split; intros [? ?]; discriminate.
    + destruct (file_ok fs (path.Join [pagesPath; dirName; os.Name file]));
        [|apply is_Some_None_false].
      destruct H as [_ H]. destruct (H eq_refl) as [? ?]. discriminate.
Qed.

Lemma compile_dirs_ok fs pagesPath ls entries :
  is_Some (compile_dirs fs pagesPath ls entries) <->
  forallb (category_ok fs pagesPath) entries = true.
Proof.
  induction entries as [|entry entries IH]; cbn [compile_dirs forallb].
  - apply is_Some_Some_true.
  - unfold category_ok at 1.
    destruct (os.ReadDir fs (path.Join [pagesPath; os.Name entry])) as [files|e];
      [|apply is_Some_None_false].
    pose proof (compile_files_ok fs pagesPath (os.Name entry) ls files) as H.
    destruct (compile_files fs pagesPath (os.Name entry) ls files) as [ps|].
    + destruct H as [H _]. rewrite (H ltac:(eauto)). cbn [andb].
      destruct (compile_dirs fs pagesPath ls entries).
      * split; [intros _; apply IH; eauto | eauto].
      * rewrite <- IH. split; intros [? ?]; discriminate.
    + match goal with |- _ <-> ?b && _ = true => destruct b end;
        [|apply is_Some_None_false].
      destruct H as [_ H]. destruct (H eq_refl) as [? ?]. discriminate.
Qed.

Lemma build_ok fs base :
  is_Some (build fs base) <->
  glob_ok fs (path.Join [base; "root.html"]) = true /\ partials_ok fs base = true
  /\ layouts_ok fs base = true /\ pages_ok fs base = true.
Proof.
  unfold build, partials_ok, layouts_ok, pages_ok.
  pose proof (glob_set_ok fs (path.Join [base; "root.html"]) ∅) as HR.
  destruct (glob_set fs (path.Join [base; "root.html"]) ∅) as [rs|].
  2:{ split; [intros [? ?]; discriminate|].
      intros (H & _). apply HR in H. destruct H; discriminate. }
  pose proof (glob_set_ok fs (path.Join [base; "partials"; "*.html"]) rs) as HP.
  destruct (glob_set fs (path.Join [base; "partials"; "*.html"]) rs) as [ps|].
  2:{ split; [intros [? ?]; discriminate|].
      intros (_ & H & _). apply HP in H. destruct H; discriminate. }
  pose proof (glob_set_ok fs (path.Join [base; "layouts"; "*.html"]) ps) as HL.
  destruct (glob_set fs (path.Join [base; "layouts"; "*.html"]) ps) as [ls|].
  2:{ split; [intros [? ?]; discriminate|].
      intros (_ & _ & H & _). apply HL in H. destruct H; discriminate. }
  destruct (os.ReadDir fs (path.Join [base; "pages"])) as [entries|e].
  2:{ split; [intros [? ?]; discriminate|].
      intros (_ & _ & _ & H). discriminate. }
  pose proof (compile_dirs_ok fs (path.Join [base; "pages"]) ls entries) as HD.
  destruct (compile_dirs fs (path.Join [base; "pages"]) ls entries) as [pgs|].
  - split; [|eauto]. intros _.
    repeat split; [apply HR | apply HP | apply HL | apply HD]; eauto.
  - split; [intros [? ?]; discriminate|].
    intros (_ & _ & _ & H). apply HD in H. destruct H; discriminate.
Qed.

Lemma New_ok fs base (h : Heap) :
  is_ok (fst (New fs base h)) = true <-> is_Some (build fs base).
Proof.
  pose proof (New_spec fs base h) as H.
  destruct (build fs base) as [b|].
  - rewrite H. simpl. split; eauto.
  - destruct H as (e & h' & ->). simpl. symmetry. apply is_Some_None_false.
Qed.





End Construction.



(** C3. Without a [partials] directory, or with one that holds no [.html]
    file, the root loads but the Partials Loader fails with "pattern
    matches no files", and [New] fails with "failed to load partials". *)
Theorem loadPartials_no_match_fails :
  let tc := {| gotemp.basePath := "examples"; gotemp.pages := ∅ |} in
  let root := {| template.ns := 0; template.Name := "root.html" |} in
  let h1 := [fresh_ns (L := Literal.lang) {[ "root.html" := "<!DOCTYPE html>" ]}] in
  let e := ErrNoMatch "examples/partials/*.html" in
  gotemp.loadRoot (L := Literal.lang) Sample.no_partials tc [] = (Ok root, h1)
  /\ fst (gotemp.loadPartials Sample.no_partials tc root h1) = Err e
  /\ fst (gotemp.New (L := Literal.lang) Sample.no_partials "examples" [])
     = Err (Wrapf "failed to load partials" e)
  /\ gotemp.loadRoot (L := Literal.lang) Sample.empty_partials tc [] = (Ok root, h1)
  /\ fst (gotemp.loadPartials Sample.empty_partials tc root h1) = Err e
  /\ fst (gotemp.New (L := Literal.lang) Sample.empty_partials "examples" [])
     = Err (Wrapf "failed to load partials" e).
Proof. cbv zeta. repeat split; vm_compute; reflexivity. Qed.



(** ** The file tree *)

Section TreeFacts.

Lemma wf_Dir l es :
  os.wf (os.Dir l es) = true ->
  Forall (fun n => os.plain n = true) (map fst es)
  /\ os.distinct (map fst es) = true
  /\ (forall n x, In (n, x) es -> os.wf x = true).
Proof.
  simpl. rewrite !andb_true_iff. intros [[Hp Hd] Hw]. repeat split.
  - now apply List.Forall_forall, forallb_forall.
  - exact Hd.
  - intros n x Hin. rewrite forallb_forall in Hw. exact (Hw _ Hin).
Qed.

Lemma lookup_entry_In n x es : os.lookup_entry n es = Some x -> In (n, x) es.
Proof.
  induction es as [|[m y] es IH]; simpl; [discriminate|].
  destruct (String.eqb_spec m n) as [->|_].
  - intros [= ->]. now left.
  - intros H. right. now apply IH.
Qed.

Lemma distinct_cons n ns :
  os.distinct (n :: ns) = true -> ~ In n ns /\ os.distinct ns = true.
Proof.
  simpl. rewrite andb_true_iff, negb_true_iff. intros [Hn Hd]. split; [|exact Hd].
  intros Hin. assert (E : existsb (String.eqb n) ns = true).
  { apply existsb_exists. exists n. split; [exact Hin | apply String.eqb_refl]. }
  congruence.
Qed.

Lemma distinct_NoDup ns : os.distinct ns = true -> List.NoDup ns.
Proof.
  induction ns as [|n ns IH]; intros H; [constructor|].
  apply distinct_cons in H as [Hn Hd]. constructor; auto.
Qed.

Lemma In_lookup_entry n x es :
  os.distinct (map fst es) = true -> In (n, x) es -> os.lookup_entry n es = Some x.
Proof.
  induction es as [|[m y] es IH]; simpl map; intros Hd Hin; [destruct Hin|].
  apply distinct_cons in Hd as [Hm Hd]. simpl.
  destruct Hin as [[= -> ->]|Hin].
  - now rewrite String.eqb_refl.
  - destruct (String.eqb_spec m n) as [->|_]; [|now apply IH].
    exfalso. apply Hm. change n with (fst (n, x)). now apply in_map.
Qed.

Lemma walk_wf cs :
  forall anc cur x,
    os.wf cur = true -> Forall (fun a => os.wf a = true) anc ->
    os.walk anc cur cs = Some x -> os.wf x = true.
Proof.
  induction cs as [|c cs IH]; intros anc cur x Hc Ha; simpl.
  - now intros [= <-].
  - destruct cur as [t|l es]; [discriminate|].
    destruct (String.eqb c "" || String.eqb c "."); [now apply IH|].
    destruct (String.eqb c "..").
    + destruct anc as [|a anc]; [now apply IH|].
      inversion Ha; subst. now apply IH.
    + destruct (os.lookup_entry c es) as [n|] eqn:E; [|discriminate].
      apply IH; [|now constructor].
      apply lookup_entry_In in E. apply wf_Dir in Hc as (_ & _ & Hw). eauto.
Qed.

Lemma resolve_wf fs p x : os.wf fs = true -> os.resolve fs p = Some x -> os.wf x = true.
Proof.
  unfold os.resolve. destruct (String.eqb p ""); [discriminate|].
  intros Hw. now apply walk_wf.
Qed.

Lemma ReadDir_Ok fs p entries :
  os.ReadDir fs p = Ok entries ->
  exists es, os.resolve fs p = Some (os.Dir true es) /\ entries = map os.entry_of es.
Proof.
  unfold os.ReadDir. destruct (os.resolve fs p) as [[t|[|] es]|]; try discriminate.
  intros [= <-]. eauto.
Qed.

(** In a well-formed tree, an entry listed by a cleaned directory path is
    what the path joined with the entry's name resolves to. *)
Lemma resolve_entry fs q l es n x :
  os.wf fs = true -> clean_path q ->
  os.resolve fs q = Some (os.Dir l es) -> In (n, x) es ->
  os.plain n = true /\ path.Join [q; n] = q +:+ "/" +:+ n
  /\ os.resolve fs (path.Join [q; n]) = Some x /\ os.wf x = true.
Proof.
  intros Hw Hq Hr Hin.
  pose proof (resolve_wf fs q _ Hw Hr) as Hd.
  apply wf_Dir in Hd as (Hp & Hdist & Hwf).
  assert (Hn : os.plain n = true).
  { rewrite List.Forall_forall in Hp. apply Hp.
    change n with (fst (n, x)). now apply in_map. }
  destruct (Join_child q n Hq Hn) as [E _].
  repeat split; [exact Hn | exact E | | eauto].
  rewrite E, resolve_child, Hr by (assumption || now apply clean_path_not_nil).
  simpl. now apply In_lookup_entry.
Qed.

End TreeFacts.

(** ** The pages directory *)

Section Pages.
Context {L : TemplateLang}.

Import template gotemp.

Lemma pages_clean_path base : clean_path (path.Join [base; "pages"]).
Proof. now apply Join_clean_path. Qed.

(** C10. When the pages directory lists an entry that is not a directory
    (a regular file directly under [pages]), listing that entry fails and
    [New] returns an error: the entry is neither skipped nor taken for a
    page.  The tree is assumed well formed (proper, distinct entry names);
    the base path is arbitrary. *)
Theorem New_rejects_file_in_pages fs base (h : Heap) entries entry :
  os.wf fs = true ->
  os.ReadDir fs (path.Join [base; "pages"]) = Ok entries ->
  In entry entries -> os.IsDir entry = false ->
  is_ok (os.ReadDir fs (path.Join [path.Join [base; "pages"]; os.Name entry])) = false
  /\ is_ok (fst (New fs base h)) = false.
Proof.
  intros Hw HR Hin Hd.
  pose proof HR as HR'. apply ReadDir_Ok in HR' as (es & Hres & ->).
  pose proof Hin as Hin'. apply in_map_iff in Hin' as ([n x] & <- & Hin').
  destruct x as [content|l' es']; [|discriminate]. cbn [os.entry_of os.Name fst] in *.
  destruct (resolve_entry fs _ _ _ n _ Hw (pages_clean_path base) Hres Hin')
    as (_ & _ & Hx & _).
  assert (HF : is_ok (os.ReadDir fs (path.Join [path.Join [base; "pages"]; n])) = false).
  { unfold os.ReadDir. now rewrite Hx. }
  split; [exact HF|].
  destruct (is_ok (fst (New fs base h))) eqn:E; [|reflexivity].
  apply New_ok, build_ok in E. destruct E as (_ & _ & _ & E).
  unfold pages_ok in E. rewrite HR in E. rewrite forallb_forall in E.
  specialize (E _ Hin). unfold category_ok in E. cbn [os.entry_of os.Name fst] in E.
  destruct (os.ReadDir fs (path.Join [path.Join [base; "pages"]; n])); discriminate.
Qed.

End Pages.

(** On the sample, the error is that of listing the stray file. *)
Example New_stray_file :
  fst (gotemp.New (L := Literal.lang) Sample.stray_file "examples" [])
  = Err (Wrapf "could not read the subpages directory examples/pages/notes.html"
           (PathError "open" "examples/pages/notes.html")).
Proof. vm_compute. reflexivity. Qed.

(** The registry of the nested sample: the directory [home/drafts] adds no
    key. *)
Example New_nested_keys :
  map fst (map_to_list (gotemp.pages Sample.nested_engine))
  = ["auth/sign_in.html"; "home/index.html"].
Proof. vm_compute. reflexivity. Qed.

Lemma New_rejects_file_in_pages_witness :
  os.wf Sample.stray_file = true
  /\ os.ReadDir Sample.stray_file (path.Join ["examples"; "pages"])
     = Ok [ {| os.Name := "home"; os.IsDir := true |};
            {| os.Name := "notes.html"; os.IsDir := false |} ]
  /\ is_ok (fst (gotemp.New (L := Literal.lang) Sample.stray_file "examples" [])) = false.
Proof.
  split; [vm_compute; reflexivity|]. split; [vm_compute; reflexivity|].
  apply (New_rejects_file_in_pages (L := Literal.lang) Sample.stray_file "examples" []
           [ {| os.Name := "home"; os.IsDir := true |};
             {| os.Name := "notes.html"; os.IsDir := false |} ]
           {| os.Name := "notes.html"; os.IsDir := false |}).
  - vm_compute. reflexivity.
  - vm_compute. reflexivity.
  - right. left. reflexivity.
  - reflexivity.
Defined.

(** ** The registry *)

Section Registry.
Context {L : TemplateLang}.

Import template gotemp.

Lemma In_category_files c x c' f :
  In (c', f) (category_files c x) <->
  c' = c /\ exists l files content, x = os.Dir l files /\ In (f, os.File content) files.
Proof.
  destruct x as [t|l files]; simpl.
  - split; [tauto|]. intros (_ & ? & ? & ? & ? & _). discriminate.
  - rewrite in_flat_map. split.
    + intros ([n y] & Hin & H). destruct y as [content|]; simpl in H; [|tauto].
      destruct H as [[= <- <-]|[]]. split; [reflexivity|]. eauto.
    + intros (-> & l' & files' & content & [= <- <-] & Hin).
      exists (f, os.File content). split; [exact Hin | now left].
Qed.

Lemma In_leaf_files cats c f :
  In (c, f) (leaf_files cats) <->
  exists l files content, In (c, os.Dir l files) cats /\ In (f, os.File content) files.
Proof.
  unfold leaf_files. rewrite in_flat_map. split.
  - intros ([c' x] & Hin & H). apply In_category_files in H. cbn [fst snd] in H.
    destruct H as (-> & l & files & content & -> & Hf). eauto.
  - intros (l & files & content & Hc & Hf).
    exists (c, os.Dir l files). split; [exact Hc|].
    apply In_category_files. simpl. eauto 6.
Qed.

Lemma category_files_NoDup c x : os.wf x = true -> NoDup (category_files c x).
Proof.
  destruct x as [t|l files]; [constructor|]. intros Hw.
  apply wf_Dir in Hw as (_ & Hd & _). simpl.
  induction files as [|[n y] files IH]; [constructor|].
  cbn [map fst] in Hd. apply distinct_cons in Hd as [Hn Hd]. simpl.
  destruct y as [content|]; simpl; [|now apply IH].
  apply NoDup_cons. split; [|now apply IH].
  intros Hin. apply list_elem_of_In in Hin.
  apply (In_category_files c (os.Dir l files)) in Hin.
  destruct Hin as (_ & l' & files' & content' & [= <- <-] & Hin).
  apply Hn. change n with (fst (n, os.File content')). now apply in_map.
Qed.

Lemma leaf_files_NoDup cats :
  os.distinct (map fst cats) = true ->
  (forall c x, In (c, x) cats -> os.wf x = true) ->
  NoDup (leaf_files cats).
Proof.
  induction cats as [|[c x] cats IH]; intros Hd Hw; [constructor|].
  cbn [map fst] in Hd. apply distinct_cons in Hd as [Hc Hd]. unfold leaf_files. simpl.
  apply NoDup_app. repeat split.
  - apply category_files_NoDup. apply (Hw c x). now left.
  - intros [c' f] Hin Hin'. apply list_elem_of_In in Hin, Hin'.
    apply In_category_files in Hin as [-> _].
    apply In_leaf_files in Hin' as (l & files & content & Hin' & _).
    apply Hc. change c with (fst (c, os.Dir l files)). now apply in_map.
  - apply IH; [exact Hd|]. intros c' x' Hin. apply (Hw c' x'). now right.
Qed.

(** A key determines the category and the file. *)
Lemma page_key_inj c f c' f' :
  slash_free c = true -> slash_free f = true ->
  slash_free c' = true -> slash_free f' = true ->
  page_key (c, f) = page_key (c', f') -> (c, f) = (c', f').
Proof.
  unfold page_key. cbn [fst snd]. intros Hc Hf Hc' Hf' E.
  apply (f_equal path.split) in E.
  change ("/" +:+ f) with (String "/" f) in E.
  change ("/" +:+ f') with (String "/" f') in E.
  rewrite !split_app_slash, !split_slash_free in E by assumption.
  now inversion E.
Qed.

Lemma leaf_files_plain cats c f :
  Forall (fun n => os.plain n = true) (map fst cats) ->
  (forall c x, In (c, x) cats -> os.wf x = true) ->
  In (c, f) (leaf_files cats) -> os.plain c = true /\ os.plain f = true.
Proof.
  intros Hp Hw Hin. apply In_leaf_files in Hin as (l & files & content & Hc & Hf).
  split.
  - rewrite List.Forall_forall in Hp. apply Hp.
    change c with (fst (c, os.Dir l files)). now apply in_map.
  - specialize (Hw _ _ Hc). apply wf_Dir in Hw as (Hp' & _).
    rewrite List.Forall_forall in Hp'. apply Hp'.
    change f with (fst (f, os.File content)). now apply in_map.
Qed.

Lemma page_keys_NoDup cats :
  os.wf (os.Dir true cats) = true -> NoDup (map page_key (leaf_files cats)).
Proof.
  intros Hw. apply wf_Dir in Hw as (Hp & Hd & Hw).
  apply (NoDup_fmap_2_strong page_key).
  - intros [c f] [c' f'] Hin Hin' E. apply list_elem_of_In in Hin, Hin'.
    destruct (leaf_files_plain cats c f Hp Hw Hin) as [Hc Hf].
    destruct (leaf_files_plain cats c' f' Hp Hw Hin') as [Hc' Hf'].
    apply page_key_inj; auto using plain_slash_free.
  - now apply leaf_files_NoDup.
Qed.

(** The keys under which the pages of a category are compiled. *)
Lemma compile_files_keys fs pagesPath d ls l files ps :
  os.plain d = true -> Forall (fun n => os.plain n = true) (map fst files) ->
  compile_files fs pagesPath d ls (map os.entry_of files) = Some ps ->
  map fst ps = map page_key (category_files d (os.Dir l files)).
Proof.
  intros Hd. revert ps. induction files as [|[n x] files IH]; intros ps Hp;
    cbn [map compile_files].
  - now intros [= <-].
  - inversion Hp as [|? ? Hn Hp']; subst. cbn [fst] in Hn.
    destruct x as [content|l' es]; cbn [os.entry_of os.IsDir os.Name fst snd negb];
      cbv iota.
    + destruct (parse_all fs [path.Join [pagesPath; d; n]] ls) as [s|]; [|discriminate].
      destruct (compile_files fs pagesPath d ls (map os.entry_of files)) as [ps'|];
        [|discriminate].
      intros [= <-]. simpl. rewrite (Join_key d n Hd Hn).
      f_equal. now apply IH.
    + intros H. simpl. now apply IH.
Qed.

Lemma compile_dirs_keys fs q ls cats :
  forall pgs,
    (forall c x, In (c, x) cats ->
       os.plain c = true /\ os.resolve fs (path.Join [q; c]) = Some x /\ os.wf x = true) ->
    compile_dirs fs q ls (map os.entry_of cats) = Some pgs ->
    map fst pgs = map page_key (leaf_files cats).
Proof.
  induction cats as [|[c x] cats IH]; intros pgs Hc; cbn [map compile_dirs].
  - now intros [= <-].
  - destruct (Hc c x ltac:(now left)) as (Hp & Hr & Hw).
    cbn [os.entry_of os.Name fst]. unfold os.ReadDir. rewrite Hr.
    destruct x as [t|[|] files]; try discriminate.
    pose proof (compile_files_keys fs q c ls true files) as HK.
    destruct (compile_files fs q c ls (map os.entry_of files)) as [ps|]; [|discriminate].
    specialize (IH) .
    destruct (compile_dirs fs q ls (map os.entry_of cats)) as [qs|] eqn:E; [|discriminate].
    intros [= <-]. unfold leaf_files. cbn [flat_map fst snd].
    rewrite !map_app. f_equal.
    + apply HK; [exact Hp | | reflexivity]. now apply wf_Dir in Hw as (? & _).
    + apply IH; [|reflexivity]. intros c' x' Hin. apply Hc. now right.
Qed.

(** The keys of the registry after storing pages. *)
Lemma install_dom name ps :
  forall n (pages : gmap string Template),
    dom (install name n ps pages) = dom pages ∪ list_to_set (map fst ps).
Proof.
  induction ps as [|[key s] ps IH]; intros n pages; simpl.
  - now rewrite (right_id_L ∅ (∪)).
  - rewrite IH, dom_insert_L.
    rewrite (comm_L (∪) {[key]} (dom pages)). now rewrite (assoc_L (∪)).
Qed.

Lemma install_lookup name ps :
  forall n (pages : gmap string Template) key t,
    install name n ps pages !! key = Some t ->
    pages !! key = Some t
    \/ exists i s, ps !! i = Some (key, s) /\ t = {| ns := n + i; Name := name |}.
Proof.
  induction ps as [|[k s] ps IH]; intros n pages key t; simpl; [now left|].
  intros H. apply IH in H as [H|(i & s' & Hi & ->)].
  - destruct (decide (k = key)) as [->|Hne].
    + rewrite lookup_insert_eq in H. injection H as <-.
      right. exists 0, s. split; [reflexivity | now rewrite Nat.add_0_r].
    + rewrite lookup_insert_ne in H by assumption. now left.
  - right. exists (S i), s'. split; [exact Hi | f_equal; lia].
Qed.

Lemma build_inv fs base b :
  build fs base = Some b ->
  root_name b = glob_name fs (path.Join [base; "root.html"])
  /\ glob_set fs (path.Join [base; "root.html"]) ∅ = Some (root_set b)
  /\ glob_set fs (path.Join [base; "partials"; "*.html"]) (root_set b)
     = Some (partials_set b)
  /\ glob_set fs (path.Join [base; "layouts"; "*.html"]) (partials_set b)
     = Some (layouts_set b)
  /\ exists entries,
       os.ReadDir fs (path.Join [base; "pages"]) = Ok entries
       /\ compile_dirs fs (path.Join [base; "pages"]) (layouts_set b) entries
          = Some (page_sets b).
Proof.
  unfold build.
  destruct (glob_set fs (path.Join [base; "root.html"]) ∅) as [rs|] eqn:ER;
    [|discriminate].
  destruct (glob_set fs (path.Join [base; "partials"; "*.html"]) rs) as [ps|] eqn:EP;
    [|discriminate].
  destruct (glob_set fs (path.Join [base; "layouts"; "*.html"]) ps) as [ls|] eqn:EL;
    [|discriminate].
  destruct (os.ReadDir fs (path.Join [base; "pages"])) as [entries|e] eqn:ED;
    [|discriminate].
  destruct (compile_dirs fs (path.Join [base; "pages"]) ls entries) as [pgs|] eqn:E;
    [|discriminate].
  intros [= <-]. simpl. repeat split; try assumption.
  exists entries. split; [reflexivity | exact E].
Qed.

Lemma New_Ok_inv fs base (h : Heap) g h' :
  New fs base h = (Ok g, h') ->
  exists b, build fs base = Some b /\ g = built_engine h base b /\ h' = built_heap h b.
Proof.
  intros HN. pose proof (New_spec fs base h) as H.
  destruct (build fs base) as [b|].
  - rewrite H in HN. injection HN as <- <-. eauto.
  - destruct H as (e & h'' & H). rewrite H in HN. discriminate.
Qed.

(** C8. When [New] succeeds on a well-formed tree, the pages directory
    resolves to a listable directory and the registry has exactly one
    entry per leaf file (an entry of a category that is not a directory),
    under the key [<category>/<filename>]: the keys of the registry are
    the keys of the leaf files, these are pairwise different, and there
    are as many entries as leaf files.  A directory at the leaf level is
    not a leaf file, and the loop over a category steps over it without
    any effect. *)
Theorem registry_keys fs base (h : Heap) g h' :
  os.wf fs = true ->
  New fs base h = (Ok g, h') ->
  exists cats,
    os.resolve fs (path.Join [base; "pages"]) = Some (os.Dir true cats)
    /\ (forall key, is_Some (pages g !! key) <-> In key (map page_key (leaf_files cats)))
    /\ NoDup (map page_key (leaf_files cats))
    /\ size (pages g) = length (leaf_files cats)
    /\ (forall c f, In (c, f) (leaf_files cats) <->
                    exists l files content,
                      In (c, os.Dir l files) cats /\ In (f, os.File content) files)
    /\ (forall pagesPath dirName layouts file files pgs,
          os.IsDir file = true ->
          loadFiles fs pagesPath dirName layouts (file :: files) pgs
          = loadFiles fs pagesPath dirName layouts files pgs).
Proof.
  intros Hw HN. apply New_Ok_inv in HN as (b & Hb & -> & ->).
  apply build_inv in Hb as (_ & _ & _ & _ & entries & HR & HC).
  apply ReadDir_Ok in HR as (cats & Hres & ->).
  exists cats. split; [exact Hres|].
  pose proof (resolve_wf fs _ _ Hw Hres) as Hwd.
  assert (HK : map fst (page_sets b) = map page_key (leaf_files cats)).
  { eapply compile_dirs_keys; [|exact HC]. intros c x Hin.
    destruct (resolve_entry fs _ _ _ c x Hw (pages_clean_path base) Hres Hin)
      as (Hp & _ & Hx & Hwx). auto. }
  pose proof (page_keys_NoDup cats Hwd) as HND.
  assert (HD : dom (pages (built_engine h base b))
               = list_to_set (map page_key (leaf_files cats))).
  { unfold built_engine. cbn [pages]. rewrite install_dom, dom_empty_L, HK.
    now rewrite (left_id_L ∅ (∪)). }
  repeat split.
  - intros Hs. apply elem_of_dom in Hs. rewrite HD in Hs.
    now apply elem_of_list_to_set, list_elem_of_In in Hs.
  - intros Hin. apply elem_of_dom. rewrite HD.
    now apply elem_of_list_to_set, list_elem_of_In.
  - exact HND.
  - rewrite <- size_dom, HD, size_list_to_set by exact HND.
    now rewrite length_map.
  - now apply In_leaf_files.
  - now apply In_leaf_files.
  - intros pagesPath dirName layouts file files pgs Hd. simpl. now rewrite Hd.
Qed.

Lemma compile_files_sets fs q d ls files :
  forall ps,
    compile_files fs q d ls files = Some ps ->
    Forall (fun p => exists filename text trees,
              os.ReadFile fs filename = Ok text
              /\ Parse (filepath.Base filename) text = Some trees
              /\ snd p = add_trees trees ls) ps.
Proof.
  induction files as [|file files IH]; intros ps; cbn [compile_files].
  - intros [= <-]. constructor.
  - destruct (os.IsDir file); cbn [negb]; cbv iota; [apply IH|].
    cbn [parse_all].
    destruct (os.ReadFile fs (path.Join [q; d; os.Name file])) as [text|e] eqn:ER;
      [|discriminate].
    destruct (Parse (filepath.Base (path.Join [q; d; os.Name file])) text) as [trees|] eqn:EP;
      [|discriminate].
    destruct (compile_files fs q d ls files) as [ps'|]; [|discriminate].
    intros [= <-]. constructor; [|now apply IH]. simpl. eauto 6.
Qed.

Lemma compile_dirs_sets fs q ls entries :
  forall pgs,
    compile_dirs fs q ls entries = Some pgs ->
    Forall (fun p => exists filename text trees,
              os.ReadFile fs filename = Ok text
              /\ Parse (filepath.Base filename) text = Some trees
              /\ snd p = add_trees trees ls) pgs.
Proof.
  induction entries as [|entry entries IH]; intros pgs; cbn [compile_dirs].
  - intros [= <-]. constructor.
  - destruct (os.ReadDir fs (path.Join [q; os.Name entry])) as [files|e]; [|discriminate].
    destruct (compile_files fs q (os.Name entry) ls files) as [ps|] eqn:EF; [|discriminate].
    destruct (compile_dirs fs q ls entries) as [qs|]; [|discriminate].
    intros [= <-]. apply Forall_app. split; [|now apply IH].
    now apply (compile_files_sets fs q (os.Name entry) ls files).
Qed.


End Registry.

(** The sample engines are what [New] returns. *)
Lemma new_complete_ok : is_ok (fst Sample.new_complete) = true.
Proof. vm_compute. reflexivity. Qed.

Lemma new_complete_eq :
  gotemp.New (L := Literal.lang) Sample.complete "examples" []
  = (Ok Sample.engine, Sample.heap).
Proof.
  change (gotemp.New (L := Literal.lang) Sample.complete "examples" [])
    with Sample.new_complete.
  pose proof new_complete_ok as H. unfold Sample.engine, Sample.heap.
  destruct Sample.new_complete as [[g|e] h]; [reflexivity | discriminate].
Qed.

Lemma new_nested_ok : is_ok (fst Sample.new_nested) = true.
Proof. vm_compute. reflexivity. Qed.

Lemma new_nested_eq :
  gotemp.New (L := Literal.lang) Sample.nested "examples" []
  = (Ok Sample.nested_engine, Sample.nested_heap).
Proof.
  change (gotemp.New (L := Literal.lang) Sample.nested "examples" [])
    with Sample.new_nested.
  pose proof new_nested_ok as H. unfold Sample.nested_engine, Sample.nested_heap.
  destruct Sample.new_nested as [[g|e] h]; [reflexivity | discriminate].
Qed.

Lemma registry_keys_witness :
  os.wf Sample.nested = true
  /\ exists cats,
       os.resolve Sample.nested (path.Join ["examples"; "pages"]) = Some (os.Dir true cats)
       /\ size (gotemp.pages Sample.nested_engine) = length (leaf_files cats).
Proof.
  assert (Hw : os.wf Sample.nested = true) by (vm_compute; reflexivity).
  split; [exact Hw|].
  destruct (registry_keys (L := Literal.lang) Sample.nested "examples" []
              Sample.nested_engine Sample.nested_heap Hw new_nested_eq)
    as (cats & H1 & _ & _ & H4 & _).
  exists cats. split; assumption.
Defined.


(** ** Construction on a heap that is in use *)

Section Frame.
Context {L : TemplateLang}.

Import template gotemp.

Lemma prefix_insert_ge (h0 h : Heap) a n :
  h0 `prefix_of` h -> length h0 <= a -> h0 `prefix_of` <[a := n]> h.
Proof.
  intros [k ->] Ha. rewrite insert_app_r_alt by lia. now eexists.
Qed.

Lemma prefix_alloc (h0 h : Heap) n : h0 `prefix_of` h -> h0 `prefix_of` h ++ [n].
Proof. apply prefix_app_r. Qed.

Lemma bind_snd {A B} (m : M A) (k : A -> M B) (h : Heap) :
  snd (bind m k h)
  = match m h with (Ok a, h1) => snd (k a h1) | (Err _, h1) => h1 end.
Proof. unfold bind. now destruct (m h) as [[a|e] h1]. Qed.

Lemma wrap_snd {A} msg (m : M A) (h : Heap) : snd (wrap msg m h) = snd (m h).
Proof. unfold wrap. now destruct (m h) as [[a|e] h1]. Qed.

Lemma wrap_Ok {A} msg (m : M A) (h h1 : Heap) a :
  wrap msg m h = (Ok a, h1) -> m h = (Ok a, h1).
Proof. unfold wrap. destruct (m h) as [[a'|e] h']; now intros [= -> ->]. Qed.

Lemma parse_into_frame (h0 : Heap) t name text (h : Heap) :
  h0 `prefix_of` h -> length h0 <= ns t ->
  h0 `prefix_of` snd (parse_into t name text h).
Proof.
  intros Hp Ht. unfold parse_into.
  destruct (escaped (deref h (ns t))); [exact Hp|].
  destruct (Parse name text); [|exact Hp]. simpl. now apply prefix_insert_ge.
Qed.

Lemma parse_each_frame (h0 : Heap) fs t filenames :
  forall h : Heap,
    h0 `prefix_of` h -> length h0 <= ns t ->
    h0 `prefix_of` snd (parse_each fs t filenames h).
Proof.
  induction filenames as [|f rest IH]; intros h Hp Ht; [exact Hp|].
  cbn [parse_each]. rewrite bind_snd. unfold lift.
  destruct (os.ReadFile fs f) as [text|e]; [|exact Hp].
  rewrite bind_snd.
  pose proof (parse_into_frame h0 t (filepath.Base f) text h Hp Ht) as H.
  destruct (parse_into t (filepath.Base f) text h) as [[u|e] h1]; [|exact H].
  now apply IH.
Qed.

Lemma parseFiles_frame (h0 : Heap) fs t filenames (h : Heap) :
  h0 `prefix_of` h ->
  match t with Some t => length h0 <= ns t | None => True end ->
  h0 `prefix_of` snd (parseFiles fs t filenames h).
Proof.
  intros Hp Ht. destruct t as [t|]; cbn [parseFiles].
  - destruct (escaped (deref h (ns t))); [exact Hp|].
    destruct filenames; [exact Hp|]. now apply parse_each_frame.
  - destruct filenames as [|f rest]; [exact Hp|].
    rewrite bind_snd. unfold lift.
    destruct (os.ReadFile fs f) as [text|e]; [|exact Hp].
    rewrite bind_snd. unfold template.New.
    pose proof (prefix_length _ _ Hp) as Hl.
    rewrite bind_snd.
    pose proof (parse_into_frame h0 {| ns := length h; Name := filepath.Base f |}
                  (filepath.Base f) text (h ++ [empty_ns]) (prefix_alloc _ _ _ Hp) Hl) as H.
    destruct (parse_into _ (filepath.Base f) text (h ++ [empty_ns])) as [[u|e] h1];
      [|exact H].
    now apply parse_each_frame.
Qed.

Lemma parseGlob_frame (h0 : Heap) fs t pattern (h : Heap) :
  h0 `prefix_of` h ->
  match t with Some t => length h0 <= ns t | None => True end ->
  h0 `prefix_of` snd (parseGlob fs t pattern h).
Proof.
  intros Hp Ht. unfold parseGlob.
  match goal with |- context [if ?b then _ else _] => destruct b end; [exact Hp|].
  destruct (filepath.Glob fs pattern) as [[|f rest]|e]; try exact Hp.
  now apply parseFiles_frame.
Qed.

Lemma clone_frame (h0 : Heap) t (h : Heap) :
  h0 `prefix_of` h ->
  h0 `prefix_of` snd (clone t h)
  /\ forall c h1, clone t h = (Ok c, h1) -> ns c = length h.
Proof.
  intros Hp. unfold clone, wrap, Clone.
  destruct (escaped (deref h (ns t))); simpl.
  - split; [exact Hp | discriminate].
  - split; [now apply prefix_alloc|]. now intros c h1 [= <- <-].
Qed.

(** Clone, then parse the files of a pattern into the clone. *)
Lemma derive_frame (h0 : Heap) fs msg t pattern (h : Heap) :
  h0 `prefix_of` h ->
  h0 `prefix_of`
    snd (bind (wrap msg (clone t)) (fun c => ParseGlob_into fs c pattern) h).
Proof.
  intros Hp. rewrite bind_snd.
  destruct (clone_frame h0 t h Hp) as [H1 H2].
  destruct (wrap msg (clone t) h) as [[c|e] h1] eqn:E.
  - apply wrap_Ok in E. rewrite E in H1. simpl in H1.
    apply parseGlob_frame; [exact H1|]. simpl. rewrite (H2 _ _ E).
    now apply prefix_length.
  - rewrite <- (wrap_snd msg (clone t) h) in H1. now rewrite E in H1.
Qed.

Lemma loadFiles_frame (h0 : Heap) fs pagesPath dirName layouts files :
  forall pgs (h : Heap),
    h0 `prefix_of` h ->
    h0 `prefix_of` snd (loadFiles fs pagesPath dirName layouts files pgs h).
Proof.
  induction files as [|file files IH]; intros pgs h Hp; [exact Hp|].
  cbn [loadFiles]. destruct (os.IsDir file); cbn [negb]; cbv iota; [now apply IH|].
  rewrite bind_snd.
  destruct (clone_frame h0 layouts h Hp) as [H1 H2].
  destruct (wrap "failed to clone layout template" (clone layouts) h) as [[c|e] h1] eqn:E.
  2:{ rewrite <- (wrap_snd "failed to clone layout template" (clone layouts) h) in H1.
      now rewrite E in H1. }
  apply wrap_Ok in E. rewrite E in H1. simpl in H1.
  rewrite bind_snd.
  match goal with |- context [wrap ?msg ?m h1] =>
    pose proof (wrap_snd msg m h1) as HW;
    assert (HF : h0 `prefix_of` snd (m h1));
    [|destruct (wrap msg m h1) as [[t'|e'] h2]; simpl in HW; rewrite <- HW in HF]
  end.
  - apply parseFiles_frame; [exact H1|]. simpl. rewrite (H2 _ _ E).
    now apply prefix_length.
  - now apply IH.
  - exact HF.
Qed.

Lemma loadDirs_frame (h0 : Heap) fs pagesPath layouts entries :
  forall pgs (h : Heap),
    h0 `prefix_of` h ->
    h0 `prefix_of` snd (loadDirs fs pagesPath layouts entries pgs h).
Proof.
  induction entries as [|entry entries IH]; intros pgs h Hp; [exact Hp|].
  cbn [loadDirs]. rewrite bind_snd. unfold wrap at 1, lift.
  destruct (os.ReadDir fs (path.Join [pagesPath; os.Name entry])) as [files|e];
    [|exact Hp].
  rewrite bind_snd.
  pose proof (loadFiles_frame h0 fs pagesPath (os.Name entry) layouts files pgs h Hp) as H.
  destruct (loadFiles fs pagesPath (os.Name entry) layouts files pgs h) as [[pgs'|e] h1];
    [|exact H].
  now apply IH.
Qed.

Lemma New_extends (fs : os.Node) base (h : Heap) : h `prefix_of` snd (New fs base h).
Proof.
  unfold New, loadPages. cbn [basePath].
  assert (H0 : h `prefix_of` h) by reflexivity.
  rewrite bind_snd.
  match goal with |- context [wrap ?msg ?m h] =>
    pose proof (wrap_snd msg m h) as HW;
    assert (HR : h `prefix_of` snd (m h))
      by (now apply parseGlob_frame);
    destruct (wrap msg m h) as [[root|e] h1]; simpl in HW; rewrite <- HW in HR;
    [|exact HR]
  end. clear HW.
  rewrite bind_snd.
  match goal with |- context [wrap ?msg ?m h1] =>
    pose proof (wrap_snd msg m h1) as HW;
    assert (HP : h `prefix_of` snd (m h1))
      by (now apply derive_frame);
    destruct (wrap msg m h1) as [[partials|e] h2]; simpl in HW; rewrite <- HW in HP;
    [|exact HP]
  end. clear HW.
  rewrite bind_snd.
  match goal with |- context [wrap ?msg ?m h2] =>
    pose proof (wrap_snd msg m h2) as HW;
    assert (HL : h `prefix_of` snd (m h2))
      by (now apply derive_frame);
    destruct (wrap msg m h2) as [[layouts|e] h3]; simpl in HW; rewrite <- HW in HL;
    [|exact HL]
  end. clear HW.
  cbv zeta. rewrite bind_snd. unfold wrap at 1, lift.
  destruct (os.ReadDir fs (path.Join [base; "pages"])) as [entries|e]; [|exact HL].
  rewrite bind_snd.
  pose proof (loadDirs_frame h fs (path.Join [base; "pages"]) layouts entries ∅ h3 HL) as HD.
  destruct (loadDirs fs (path.Join [base; "pages"]) layouts entries ∅ h3) as [[pgs|e] h4];
    exact HD.
Qed.

(** A render depends on the heap through the rendered page's set only. *)
Lemma RenderPage_result_local tc w layout page data (h1 h2 : Heap) :
  (forall t, pages tc !! page = Some t -> set (deref h1 (ns t)) = set (deref h2 (ns t))) ->
  fst (RenderPage tc w layout page data h1) = fst (RenderPage tc w layout page data h2).
Proof.
  intros H. unfold RenderPage. destruct (pages tc !! page) as [t|]; [|reflexivity].
  unfold ExecuteTemplate. rewrite (H t eq_refl).
  destruct (set (deref h2 (ns t)) !! layout) as [tree|]; [|reflexivity].
  now destruct (Exec (set (deref h2 (ns t))) tree data).
Qed.

Lemma deref_prefix (h0 h : Heap) a :
  h0 `prefix_of` h -> a < length h0 -> deref h a = deref h0 a.
Proof.
  intros [k ->] Ha. unfold deref. now rewrite lookup_app_l.
Qed.

(** X1. Whatever its outcome, [New] changes no name space that was on the
    heap when it started: the old heap is a prefix of the new one.  An
    engine whose template sets are on the old heap therefore returns and
    writes the same for every render after the call as before it. *)
Theorem New_frame (fs : os.Node) base (h : Heap) :
  let h' := snd (New fs base h) in
  h `prefix_of` h'
  /\ (forall a, a < length h -> h' !! a = h !! a)
  /\ (forall tc,
        (forall key t, pages tc !! key = Some t -> ns t < length h) ->
        forall w layout page data,
          fst (RenderPage tc w layout page data h')
          = fst (RenderPage tc w layout page data h)).
Proof.
  cbv zeta. pose proof (New_extends fs base h) as Hp. repeat split.
  - exact Hp.
  - intros a Ha. destruct Hp as [k ->]. now apply lookup_app_l.
  - intros tc Htc w layout page data. apply RenderPage_result_local.
    intros t Ht. f_equal. apply deref_prefix; eauto.
Qed.

End Frame.

(** ** The engine [New] builds *)

Section Built.
Context {L : TemplateLang}.

Import template gotemp.

Lemma built_heap_length (h : Heap) b :
  length (built_heap h b) = length h + 3 + length (page_sets b).
Proof. unfold built_heap. rewrite !length_app, length_map. simpl. lia. Qed.

Lemma built_heap_root (h : Heap) b :
  built_heap h b !! length h = Some (fresh_ns (root_set b)).
Proof.
  unfold built_heap. rewrite lookup_app_r by lia. now rewrite Nat.sub_diag.
Qed.

Lemma built_heap_partials (h : Heap) b :
  built_heap h b !! (length h + 1) = Some (fresh_ns (partials_set b)).
Proof.
  unfold built_heap. rewrite lookup_app_r by lia.
  now replace (length h + 1 - length h) with 1 by lia.
Qed.

Lemma built_heap_layouts (h : Heap) b :
  built_heap h b !! (length h + 2) = Some (fresh_ns (layouts_set b)).
Proof.
  unfold built_heap. rewrite lookup_app_r by lia.
  now replace (length h + 2 - length h) with 2 by lia.
Qed.

Lemma built_heap_page (h : Heap) b i p :
  page_sets b !! i = Some p ->
  built_heap h b !! (length h + 3 + i) = Some (fresh_ns (snd p)).
Proof.
  intros Hi. unfold built_heap. rewrite app_assoc.
  rewrite lookup_app_r by (rewrite length_app; simpl; lia).
  rewrite length_app. cbn [length].
  replace (length h + 3 + i - (length h + 3)) with i by lia.
  now rewrite list_lookup_fmap, Hi.
Qed.

Lemma install_lookup_notin name ps :
  forall n (pgs : gmap string Template) key,
    ~ In key (map fst ps) -> install name n ps pgs !! key = pgs !! key.
Proof.
  induction ps as [|[k s] ps IH]; intros n pgs key Hk; [reflexivity|].
  cbn [install]. rewrite IH by (intros H; apply Hk; now right).
  apply lookup_insert_ne. intros ->. apply Hk. now left.
Qed.

Lemma install_lookup_Some name ps :
  forall n (pgs : gmap string Template) i key s,
    NoDup (map fst ps) -> ps !! i = Some (key, s) ->
    install name n ps pgs !! key = Some {| ns := n + i; Name := name |}.
Proof.
  induction ps as [|[k s0] ps IH]; intros n pgs i key s Hnd Hi; [discriminate|].
  cbn [map fst] in Hnd. apply NoDup_cons in Hnd as [Hk Hnd]. cbn [install].
  destruct i as [|i].
  - injection Hi as -> ->. rewrite install_lookup_notin.
    + rewrite lookup_insert_eq. now rewrite Nat.add_0_r.
    + intros H. apply Hk. now apply list_elem_of_In.
  - rewrite (IH (S n) _ i key s Hnd Hi). do 2 f_equal. lia.
Qed.

Lemma built_page_lookup (h : Heap) base b key t :
  pages (built_engine h base b) !! key = Some t ->
  exists i s, page_sets b !! i = Some (key, s)
              /\ t = {| ns := length h + 3 + i; Name := root_name b |}.
Proof.
  unfold built_engine. cbn [pages]. intros H.
  apply install_lookup in H as [H|H]; [|exact H].
  rewrite lookup_empty in H. discriminate.
Qed.

(** The pages a category compiles, file by file. *)
Lemma compile_files_pages fs q d ls l files :
  forall ps,
    compile_files fs q d ls (map os.entry_of files) = Some ps ->
    Forall2 (fun p cf => parse_all fs [path.Join [q; fst cf; snd cf]] ls = Some (snd p))
      ps (category_files d (os.Dir l files)).
Proof.
  induction files as [|[n x] files IH]; intros ps; cbn [map compile_files].
  - intros [= <-]. constructor.
  - destruct x as [content|l' es]; cbn [os.entry_of os.IsDir os.Name fst snd negb];
      cbv iota.
    + destruct (parse_all fs [path.Join [q; d; n]] ls) as [s|] eqn:E; [|discriminate].
      destruct (compile_files fs q d ls (map os.entry_of files)) as [ps'|];
        [|discriminate].
      intros [= <-]. simpl. constructor; [exact E|]. now apply IH.
    + intros H. simpl. now apply IH.
Qed.

Lemma compile_dirs_pages fs q ls cats :
  forall pgs,
    (forall c x, In (c, x) cats -> os.resolve fs (path.Join [q; c]) = Some x) ->
    compile_dirs fs q ls (map os.entry_of cats) = Some pgs ->
    Forall2 (fun p cf => parse_all fs [path.Join [q; fst cf; snd cf]] ls = Some (snd p))
      pgs (leaf_files cats).
Proof.
  induction cats as [|[c x] cats IH]; intros pgs Hc; cbn [map compile_dirs].
  - intros [= <-]. constructor.
  - pose proof (Hc c x ltac:(now left)) as Hr.
    cbn [os.entry_of os.Name fst]. unfold os.ReadDir. rewrite Hr.
    destruct x as [t|[|] files]; try discriminate.
    pose proof (compile_files_pages fs q c ls true files) as HK.
    destruct (compile_files fs q c ls (map os.entry_of files)) as [ps|]; [|discriminate].
    destruct (compile_dirs fs q ls (map os.entry_of cats)) as [qs|] eqn:E; [|discriminate].
    intros [= <-]. unfold leaf_files. cbn [flat_map fst snd].
    apply Forall2_app; [now apply HK|].
    apply IH; [|reflexivity]. intros c' x' Hin. apply Hc. now right.
Qed.

Lemma parse_all_single fs name ls s :
  parse_all fs [name] ls = Some s ->
  exists text trees,
    os.ReadFile fs name = Ok text /\ Parse (filepath.Base name) text = Some trees
    /\ s = add_trees trees ls.
Proof.
  cbn [parse_all]. destruct (os.ReadFile fs name) as [text|e]; [|discriminate].
  destruct (Parse (filepath.Base name) text) as [trees|] eqn:E; [|discriminate].
  intros [= <-]. exists text, trees. auto.
Qed.

(** The entry of a leaf file in the engine [New] returns. *)
Lemma built_page fs base (h : Heap) g h' cats c f :
  os.wf fs = true ->
  New fs base h = (Ok g, h') ->
  os.resolve fs (path.Join [base; "pages"]) = Some (os.Dir true cats) ->
  In (c, f) (leaf_files cats) ->
  exists t text trees,
    pages g !! (c +:+ "/" +:+ f) = Some t
    /\ os.ReadFile fs (path.Join [base; "pages"] +:+ "/" +:+ c +:+ "/" +:+ f) = Ok text
    /\ Parse f text = Some trees
    /\ ns t < length h'
    /\ h' !! ns t = Some (fresh_ns (add_trees trees (set (deref h' (length h + 2))))).
Proof.
  intros Hw HN Hres Hin. apply New_Ok_inv in HN as (b & Hb & -> & ->).
  apply build_inv in Hb as (_ & _ & _ & _ & entries & HR & HC).
  apply ReadDir_Ok in HR as (cats' & Hres' & ->).
  rewrite Hres in Hres'. injection Hres' as <-.
  pose proof (resolve_wf fs _ _ Hw Hres) as Hwd.
  assert (Hent : forall c x, In (c, x) cats ->
            os.plain c = true
            /\ os.resolve fs (path.Join [path.Join [base; "pages"]; c]) = Some x
            /\ os.wf x = true).
  { intros c' x Hx.
    destruct (resolve_entry fs _ _ _ c' x Hw (pages_clean_path base) Hres Hx)
      as (Hp & _ & Hx' & Hwx). auto. }
  pose proof (compile_dirs_keys fs _ _ cats _ Hent HC) as HK.
  assert (HP : Forall2 (fun p cf =>
            parse_all fs [path.Join [path.Join [base; "pages"]; fst cf; snd cf]]
              (layouts_set b) = Some (snd p)) (page_sets b) (leaf_files cats)).
  { apply compile_dirs_pages; [|exact HC]. intros c' x Hx. now apply Hent. }
  apply list_elem_of_In, list_elem_of_lookup in Hin as [i Hi].
  destruct (Forall2_lookup_r _ _ _ _ _ HP Hi) as ([key s] & Hpi & Hs).
  cbn [fst snd] in Hs.
  assert (Hkey : key = c +:+ "/" +:+ f).
  { apply (f_equal (fun l => l !! i)) in HK.
    rewrite !list_lookup_fmap, Hpi, Hi in HK. now injection HK. }
  subst key.
  apply parse_all_single in Hs as (text & trees & E1 & E2 & ->).
  apply wf_Dir in Hwd as (Hpl & _ & Hwx).
  assert (Hcf : os.plain c = true /\ os.plain f = true).
  { apply (leaf_files_plain cats); [exact Hpl | exact Hwx|].
    apply list_elem_of_In, list_elem_of_lookup. eauto. }
  destruct Hcf as [Hpc Hpf].
  rewrite (Join_grandchild _ c f (pages_clean_path base) Hpc Hpf) in E1, E2.
  rewrite Base_child in E2
    by (now apply plain_slash_free || (apply plain_inv in Hpf; tauto)).
  rewrite !string_app_assoc in E1.
  exists {| ns := length h + 3 + i; Name := root_name b |}, text, trees.
  cbn [ns]. repeat split.
  - unfold built_engine. cbn [pages].
    apply (install_lookup_Some _ _ _ _ i _ (add_trees trees (layouts_set b))).
    + rewrite HK. now apply page_keys_NoDup, (resolve_wf fs _ _ Hw Hres).
    + exact Hpi.
  - exact E1.
  - exact E2.
  - rewrite built_heap_length. apply lookup_lt_Some in Hpi. lia.
  - rewrite (built_heap_page h b i _ Hpi). cbn [snd].
    now rewrite (deref_lookup _ _ _ (built_heap_layouts h b)).
Qed.

(** X2. In the engine [New] returns on a well-formed tree, the entry for
    the leaf file [f] of category [c] is registered under [c/f] and
    points to a set that holds the layouts set extended by the trees of
    the file [<base>/pages/c/f], parsed under the name [f]. *)
Theorem page_entry fs base (h : Heap) g h' cats c f :
  os.wf fs = true ->
  New fs base h = (Ok g, h') ->
  os.resolve fs (path.Join [base; "pages"]) = Some (os.Dir true cats) ->
  In (c, f) (leaf_files cats) ->
  exists t text trees,
    pages g !! (c +:+ "/" +:+ f) = Some t
    /\ os.ReadFile fs (path.Join [base; "pages"] +:+ "/" +:+ c +:+ "/" +:+ f) = Ok text
    /\ Parse f text = Some trees
    /\ h' !! ns t = Some (fresh_ns (add_trees trees (set (deref h' (length h + 2))))).
Proof.
  intros Hw HN Hres Hin.
  destruct (built_page fs base h g h' cats c f Hw HN Hres Hin)
    as (t & text & trees & H1 & H2 & H3 & _ & H5).
  eauto 8.
Qed.

Lemma RenderPage_execute_in tc w layout page data (h : Heap) t :
  pages tc !! page = Some t ->
  fst (RenderPage tc w layout page data h)
  = execute_in (set (deref h (ns t))) w layout data.
Proof.
  intros Ht. unfold RenderPage, ExecuteTemplate, execute_in. rewrite Ht.
  destruct (set (deref h (ns t)) !! layout) as [tree|]; [|reflexivity].
  now destruct (Exec (set (deref h (ns t))) tree data).
Qed.


End Built.

Lemma page_entry_witness :
  exists t text trees,
    gotemp.pages Sample.engine !! "home/index.html" = Some t
    /\ os.ReadFile Sample.complete "examples/pages/home/index.html" = Ok text
    /\ Parse (TemplateLang := Literal.lang) "index.html" text = Some trees
    /\ Sample.heap !! template.ns t
       = Some (fresh_ns (template.add_trees trees
                           (template.set (template.deref Sample.heap 2)))).
Proof.
  apply (page_entry (L := Literal.lang) Sample.complete "examples" []
           Sample.engine Sample.heap [("home", Sample.home)] "home" "index.html").
  - vm_compute. reflexivity.
  - exact new_complete_eq.
  - vm_compute. reflexivity.
  - left. reflexivity.
Defined.


(** ** Inheritance, empty registries, several engines *)

Section Engines.
Context {L : TemplateLang}.

Import template gotemp.

Lemma dom_add_trees (new old : gmap string Tree) :
  dom (add_trees new old) = dom new ∪ dom old.
Proof.
  apply set_eq. intros x. rewrite elem_of_union, !elem_of_dom.
  unfold add_trees. rewrite lookup_union_with.
  destruct (new !! x) as [n|], (old !! x) as [o|]; simpl;
    rewrite ?is_Some_alt; tauto.
Qed.

Lemma parse_all_dom fs filenames :
  forall s s', parse_all fs filenames s = Some s' -> dom s ⊆ dom s'.
Proof.
  induction filenames as [|f rest IH]; intros s s'; cbn [parse_all].
  - now intros [= <-].
  - destruct (os.ReadFile fs f) as [text|e]; [|discriminate].
    destruct (Parse (filepath.Base f) text) as [trees|]; [|discriminate].
    intros H. apply IH in H. rewrite dom_add_trees in H.
    intros x Hx. apply H. apply elem_of_union. now right.
Qed.

Lemma glob_set_dom fs pattern s s' : glob_set fs pattern s = Some s' -> dom s ⊆ dom s'.
Proof.
  unfold glob_set. destruct (filepath.Glob fs pattern) as [[|f rest]|e]; try discriminate.
  apply parse_all_dom.
Qed.

(** X4. In the heap [New] leaves, every fragment name of the root set is
    defined in the partials set, every one of the partials set in the
    layouts set, and every one of the layouts set in the set of every
    page of the registry.  So a layout name defined by the layouts is
    found in every page: rendering it never stops at an undefined name
    but returns and writes what the executor does. *)
Theorem New_inherits fs base (h : Heap) g h' :
  New fs base h = (Ok g, h') ->
  let rootS := set (deref h' (length h)) in
  let partialsS := set (deref h' (length h + 1)) in
  let layoutsS := set (deref h' (length h + 2)) in
  dom rootS ⊆ dom partialsS
  /\ dom partialsS ⊆ dom layoutsS
  /\ forall key t,
       pages g !! key = Some t ->
       dom layoutsS ⊆ dom (set (deref h' (ns t)))
       /\ forall layout w data,
            layout ∈ dom layoutsS ->
            exists tree,
              set (deref h' (ns t)) !! layout = Some tree
              /\ fst (RenderPage g w layout key data h')
                 = (snd (Exec (set (deref h' (ns t))) tree data),
                    w +:+ fst (Exec (set (deref h' (ns t))) tree data)).
Proof.
  intros HN. apply New_Ok_inv in HN as (b & Hb & -> & ->).
  apply build_inv in Hb as (_ & HGR & HGP & HGL & entries & HR & HC).
  cbv zeta.
  rewrite (deref_lookup _ _ _ (built_heap_root h b)),
    (deref_lookup _ _ _ (built_heap_partials h b)),
    (deref_lookup _ _ _ (built_heap_layouts h b)). cbn [set fresh_ns].
  split; [now apply (glob_set_dom fs _ _ _ HGP)|].
  split; [now apply (glob_set_dom fs _ _ _ HGL)|].
  intros key t Ht.
  destruct (built_page_lookup h base b key t Ht) as (i & s & Hi & ->). cbn [ns].
  rewrite (deref_lookup _ _ _ (built_heap_page h b i _ Hi)). cbn [set fresh_ns snd].
  pose proof (compile_dirs_sets fs _ _ _ _ HC) as HS.
  rewrite Forall_lookup in HS.
  destruct (HS _ _ Hi) as (f & text & trees & _ & _ & E). cbn [snd] in E.
  assert (Hsub : dom (layouts_set b) ⊆ dom s).
  { rewrite E, dom_add_trees. intros x Hx. apply elem_of_union. now right. }
  split; [exact Hsub|].
  intros layout w data Hl. apply Hsub, elem_of_dom in Hl as [tree Htree].
  exists tree. split; [exact Htree|].
  rewrite (RenderPage_execute_in _ _ _ _ _ _ _ Ht). cbn [ns].
  rewrite (deref_lookup _ _ _ (built_heap_page h b i _ Hi)). cbn [set fresh_ns snd].
  unfold execute_in. now rewrite Htree.
Qed.

(** X5. A pages directory without entries is no error: when root,
    partials and layouts load, [New] succeeds with the given base path
    and an empty registry, having allocated the three ancestor sets only;
    every render of that engine then fails with "page template not found"
    and writes nothing. *)
Theorem New_empty_pages fs base (h : Heap) :
  glob_ok fs (path.Join [base; "root.html"]) = true ->
  partials_ok fs base = true ->
  layouts_ok fs base = true ->
  os.ReadDir fs (path.Join [base; "pages"]) = Ok [] ->
  exists g h',
    New fs base h = (Ok g, h')
    /\ basePath g = base
    /\ pages g = ∅
    /\ length h' = length h + 3
    /\ forall w layout page data,
         RenderPage g w layout page data h'
         = ((Some (Errorf ("page template not found: " +:+ page)), w), h').
Proof.
  intros HR HP HL HD.
  assert (Hb : is_Some (build fs base)).
  { apply build_ok. repeat split; try assumption.
    unfold pages_ok. now rewrite HD. }
  destruct Hb as [b Hb]. pose proof (New_spec fs base h) as HN. rewrite Hb in HN.
  apply build_inv in Hb as (_ & _ & _ & _ & entries & HR' & HC).
  rewrite HD in HR'. injection HR' as <-. cbn [compile_dirs] in HC.
  injection HC as HC.
  exists (built_engine h base b), (built_heap h b).
  assert (Hpages : pages (built_engine h base b) = ∅).
  { unfold built_engine. cbn [pages]. now rewrite <- HC. }
  repeat split.
  - exact HN.
  - exact Hpages.
  - rewrite built_heap_length, <- HC. simpl. lia.
  - intros w layout page data. unfold RenderPage.
    now rewrite Hpages, lookup_empty.
Qed.

Lemma RenderPage_lookup_other tc w layout page data (h : Heap) a :
  (forall t, pages tc !! page = Some t -> a <> ns t) ->
  snd (RenderPage tc w layout page data h) !! a = h !! a.
Proof.
  intros Ha. unfold RenderPage.
  destruct (pages tc !! page) as [t|]; [|reflexivity].
  specialize (Ha t eq_refl). unfold ExecuteTemplate.
  destruct (set (deref h (ns t)) !! layout) as [tree|]; simpl.
  - destruct (Exec (set (deref h (ns t))) tree data). simpl.
    now apply list_lookup_insert_ne.
  - now apply list_lookup_insert_ne.
Qed.

Lemma built_pointer_range (h : Heap) base b key t :
  pages (built_engine h base b) !! key = Some t ->
  length h + 3 <= ns t < length (built_heap h b).
Proof.
  intros Ht. destruct (built_page_lookup h base b key t Ht) as (i & s & Hi & ->).
  cbn [ns]. rewrite built_heap_length. apply lookup_lt_Some in Hi. lia.
Qed.

(** X6. Two engines built one after the other on the same heap are
    independent: no template set is shared between their registries, the
    first engine returns and writes the same for every render after the
    second construction as before it, and a render of either engine
    leaves every template set of the other exactly as it was, its
    executed mark included. *)
Theorem New_engines_independent fs1 base1 fs2 base2 (h0 : Heap) g1 h1 g2 h2 :
  New fs1 base1 h0 = (Ok g1, h1) ->
  New fs2 base2 h1 = (Ok g2, h2) ->
  (forall k1 k2 t1 t2,
     pages g1 !! k1 = Some t1 -> pages g2 !! k2 = Some t2 -> ns t1 <> ns t2)
  /\ (forall w layout page data,
        fst (RenderPage g1 w layout page data h2)
        = fst (RenderPage g1 w layout page data h1))
  /\ (forall w layout page data k t (h : Heap),
        pages g1 !! k = Some t ->
        snd (RenderPage g2 w layout page data h) !! ns t = h !! ns t)
  /\ (forall w layout page data k t (h : Heap),
        pages g2 !! k = Some t ->
        snd (RenderPage g1 w layout page data h) !! ns t = h !! ns t).
Proof.
  intros HN1 HN2. pose proof (New_extends fs2 base2 h1) as Hp.
  rewrite HN2 in Hp. cbn [snd] in Hp.
  apply New_Ok_inv in HN1 as (b1 & _ & -> & ->).
  apply New_Ok_inv in HN2 as (b2 & _ & -> & ->).
  assert (Hdisj : forall k1 k2 t1 t2,
            pages (built_engine h0 base1 b1) !! k1 = Some t1 ->
            pages (built_engine (built_heap h0 b1) base2 b2) !! k2 = Some t2 ->
            ns t1 <> ns t2).
  { intros k1 k2 t1 t2 H1 H2.
    apply built_pointer_range in H1, H2. lia. }
  repeat split.
  - exact Hdisj.
  - intros w layout page data. apply RenderPage_result_local.
    intros t Ht. f_equal. apply deref_prefix; [exact Hp|].
    now apply built_pointer_range in Ht.
  - intros w layout page data k t h Ht. apply RenderPage_lookup_other.
    intros t' Ht'. now apply (Hdisj k page).
  - intros w layout page data k t h Ht. apply RenderPage_lookup_other.
    intros t' Ht' E. now apply (Hdisj page k t' t).
Qed.

End Engines.

Lemma New_inherits_witness :
  dom (template.set (L := Literal.lang) (template.deref Sample.heap 0))
  ⊆ dom (template.set (template.deref Sample.heap 2)).
Proof.
  pose proof (New_inherits (L := Literal.lang) Sample.complete "examples" []
                Sample.engine Sample.heap new_complete_eq) as H.
  cbv zeta in H. destruct H as (H1 & H2 & _).
  intros x Hx. apply H2, H1, Hx.
Defined.

Lemma New_empty_pages_witness :
  exists g h',
    gotemp.New (L := Literal.lang) Sample.empty_pages "examples" [] = (Ok g, h')
    /\ gotemp.pages g = ∅.
Proof.
  destruct (New_empty_pages (L := Literal.lang) Sample.empty_pages "examples" [])
    as (g & h' & H1 & _ & H3 & _).
  - vm_compute. reflexivity.
  - vm_compute. reflexivity.
  - vm_compute. reflexivity.
  - vm_compute. reflexivity.
  - exists g, h'. split; assumption.
Defined.

Lemma new_second_ok : is_ok (fst Sample.new_second) = true.
Proof. vm_compute. reflexivity. Qed.

Lemma new_second_eq :
  gotemp.New (L := Literal.lang) Sample.nested "examples" Sample.heap
  = (Ok Sample.second_engine, Sample.second_heap).
Proof.
  change (gotemp.New (L := Literal.lang) Sample.nested "examples" Sample.heap)
    with Sample.new_second.
  pose proof new_second_ok as H. unfold Sample.second_engine, Sample.second_heap.
  destruct Sample.new_second as [[g|e] h]; [reflexivity | discriminate].
Qed.

Lemma New_engines_independent_witness :
  (forall k1 k2 t1 t2,
     gotemp.pages Sample.engine !! k1 = Some t1 ->
     gotemp.pages Sample.second_engine !! k2 = Some t2 ->
     template.ns t1 <> template.ns t2)
  /\ fst (gotemp.RenderPage (L := Literal.lang) Sample.engine "" "home/index.html"
            "home/index.html" None Sample.second_heap)
     = fst (gotemp.RenderPage (L := Literal.lang) Sample.engine "" "home/index.html"
              "home/index.html" None Sample.heap).
Proof.
  destruct (New_engines_independent (L := Literal.lang) Sample.complete "examples"
              Sample.nested "examples" [] Sample.engine Sample.heap
              Sample.second_engine Sample.second_heap new_complete_eq new_second_eq)
    as (H1 & H2 & _).
  split; [exact H1 | apply H2].
Defined.


(** ** The errors of construction *)

Section LoadErrors.
Context {L : TemplateLang}.

Import template gotemp.

Lemma ReadDir_Err fs p e : os.ReadDir fs p = Err e -> e = PathError "open" p.
Proof.
  unfold os.ReadDir. destruct (os.resolve fs p) as [[t|[|] es]|]; congruence.
Qed.

Lemma ReadFile_Err fs p e : os.ReadFile fs p = Err e -> e = PathError "open" p.
Proof.
  unfold os.ReadFile. destruct (os.resolve fs p) as [[[text|]|l es]|]; congruence.
Qed.

Lemma parse_cause_cons fs f rest e :
  parse_cause fs rest e -> parse_cause fs (f :: rest) e.
Proof.
  intros [g Hin H | g text Hin H1 H2].
  - apply parse_cause_read; [now right | exact H].
  - apply (parse_cause_syntax fs (f :: rest) g text); [now right | exact H1 | exact H2].
Qed.

(** *** The cause of a failed parse *)

Lemma parse_each_cause fs t filenames :
  forall (h : Heap) s e h',
    h !! ns t = Some (fresh_ns s) ->
    parse_each fs t filenames h = (Err e, h') -> parse_cause fs filenames e.
Proof.
  induction filenames as [|f rest IH]; intros h s e h' Hs; simpl.
  - unfold ret. discriminate.
  - unfold bind, lift. destruct (os.ReadFile fs f) as [text|e0] eqn:ER.
    + unfold parse_into. rewrite (deref_lookup _ _ _ Hs). simpl.
      destruct (Parse (filepath.Base f) text) as [trees|] eqn:EP.
      * intros H. apply parse_cause_cons.
        refine (IH _ (add_trees trees s) e h' _ H).
        apply list_lookup_insert_eq. eapply lookup_lt_Some; eassumption.
      * intros [= <- <-]. apply (parse_cause_syntax fs (f :: rest) f text);
          [now left | exact ER | exact EP].
    + intros [= <- <-]. rewrite (ReadFile_Err _ _ _ ER).
      apply parse_cause_read; [now left | now rewrite ER].
Qed.

Lemma ParseFiles_cause fs t filenames (h : Heap) s e h' :
  filenames <> [] -> h !! ns t = Some (fresh_ns s) ->
  ParseFiles fs t filenames h = (Err e, h') -> parse_cause fs filenames e.
Proof.
  intros Hne Hs. unfold ParseFiles, parseFiles.
  rewrite (deref_lookup _ _ _ Hs). simpl.
  destruct filenames as [|f rest]; [congruence|].
  apply (parse_each_cause fs t (f :: rest) h s e h' Hs).
Qed.

Lemma ParseGlob_into_cause fs t pattern (h : Heap) s e h' :
  is_ok (filepath.Glob fs pattern) = true ->
  h !! ns t = Some (fresh_ns s) ->
  ParseGlob_into fs t pattern h = (Err e, h') -> glob_cause fs pattern e.
Proof.
  intros HG Hs H.
  destruct (filepath.Glob fs pattern) as [[|f rest]|e0] eqn:EG; [| |discriminate].
  - unfold ParseGlob_into, parseGlob in H.
    rewrite (deref_lookup _ _ _ Hs), EG in H. simpl in H.
    injection H as <- <-. now apply glob_cause_no_match.
  - apply (glob_cause_file fs pattern (f :: rest) e EG).
    apply (ParseFiles_cause fs t (f :: rest) h s e h'); [discriminate | exact Hs|].
    unfold ParseGlob_into, parseGlob in H.
    rewrite (deref_lookup _ _ _ Hs), EG in H. exact H.
Qed.

Lemma ParseGlob_cause fs pattern (h : Heap) e h' :
  is_ok (filepath.Glob fs pattern) = true ->
  ParseGlob fs pattern h = (Err e, h') -> glob_cause fs pattern e.
Proof.
  intros HG H. unfold ParseGlob, parseGlob in H.
  destruct (filepath.Glob fs pattern) as [[|f rest]|e0] eqn:EG; [| |discriminate].
  - injection H as <- <-. now apply glob_cause_no_match.
  - apply (glob_cause_file fs pattern (f :: rest) e EG).
    cbn [parseFiles] in H. unfold bind at 1, lift in H.
    destruct (os.ReadFile fs f) as [text|e1] eqn:ER.
    + unfold bind at 1, template.New in H.
      apply (parse_each_cause fs {| ns := length h; Name := filepath.Base f |}
               (f :: rest) (h ++ [empty_ns]) ∅ e h' (lookup_alloc h _)).
      cbn [parse_each]. unfold bind at 1, lift. rewrite ER. exact H.
    + injection H as <- <-. rewrite (ReadFile_Err _ _ _ ER).
      apply parse_cause_read; [now left | now rewrite ER].
Qed.

Lemma derive_cause fs msg t pattern (h : Heap) s e h' :
  is_ok (filepath.Glob fs pattern) = true ->
  h !! ns t = Some (fresh_ns s) ->
  bind (wrap msg (clone t)) (fun c => ParseGlob_into fs c pattern) h = (Err e, h') ->
  glob_cause fs pattern e.
Proof.
  intros HG Hs. rewrite (bind_wrap_clone msg t h s _ _ Hs).
  apply (ParseGlob_into_cause fs {| ns := length h; Name := Name t |} pattern
           (h ++ [fresh_ns s]) s e h' HG (lookup_alloc h _)).
Qed.

(** For a base path without magic characters the patterns of the package
    list: [filepath.Glob] returns no error on them. *)
Lemma Glob_root_lists fs base :
  filepath.hasMeta base = false ->
  is_ok (filepath.Glob fs (path.Join [base; "root.html"])) = true.
Proof.
  intros Hb. rewrite (Glob_literal fs base "root.html" Hb) by reflexivity.
  now destruct (os.Lstat fs (path.Join [base; "root.html"])).
Qed.

Lemma Glob_star_lists fs base d :
  filepath.hasMeta base = false -> os.plain d = true -> filepath.hasMeta d = false ->
  is_ok (filepath.Glob fs (path.Join [base; d; "*.html"])) = true.
Proof.
  intros Hb Hd Hm. rewrite Glob_star_html by assumption. unfold filepath.glob.
  destruct (os.resolve fs (path.Join [base; d])) as [[t|[|] es]|]; reflexivity.
Qed.

Lemma glob_set_Some_ok fs pattern s s' :
  glob_set fs pattern s = Some s' -> glob_ok fs pattern = true.
Proof. intros H. apply (glob_set_ok fs pattern s). rewrite H. eauto. Qed.

(** *** The first error of the page loop *)

Lemma compile_page_err fs msg1 msg2 layouts name (h : Heap) s A (k : Template -> M A) :
  h !! ns layouts = Some (fresh_ns s) ->
  parse_all fs [name] s = None ->
  exists cause h',
    parse_cause fs [name] cause
    /\ bind (wrap msg1 (clone layouts)) (fun layout =>
       bind (wrap msg2 (ParseFiles fs layout [name])) k) h = (Err (Wrapf msg2 cause), h').
Proof.
  intros Hs Hn.
  pose proof (ParseFiles_spec fs {| ns := length h; Name := Name layouts |} [name]
                (h ++ [fresh_ns s]) s ltac:(discriminate) (lookup_alloc h _)) as H.
  rewrite Hn in H. destruct H as (e & h' & H).
  exists e, h'. split.
  - apply (ParseFiles_cause fs {| ns := length h; Name := Name layouts |} [name]
             (h ++ [fresh_ns s]) s e h'); [discriminate | apply lookup_alloc | exact H].
  - rewrite (bind_wrap_clone msg1 layouts h s _ _ Hs).
    now rewrite (bind_wrap_Err _ _ _ _ _ _ H).
Qed.

Lemma loadFiles_err fs q d layouts s files :
  forall pgs (h : Heap),
    h !! ns layouts = Some (fresh_ns s) ->
    compile_files fs q d s files = None ->
    exists file cause h',
      In file files /\ os.IsDir file = false
      /\ parse_cause fs [path.Join [q; d; os.Name file]] cause
      /\ loadFiles fs q d layouts files pgs h
         = (Err (Wrapf ("failed to parse page template "
                        +:+ path.Join [q; d; os.Name file]) cause), h').
Proof.
  induction files as [|file files IH]; intros pgs h Hs; cbn [compile_files loadFiles];
    [discriminate|].
  destruct (os.IsDir file) eqn:Ed; cbn [negb]; cbv iota.
  - intros Hn. destruct (IH pgs h Hs Hn) as (f & c & h' & Hin & H).
    exists f, c, h'. split; [now right | exact H].
  - destruct (parse_all fs [path.Join [q; d; os.Name file]] s) as [s'|] eqn:Ep.
    + pose proof (compile_page_spec fs "failed to clone layout template"
        ("failed to parse page template " +:+ path.Join [q; d; os.Name file])
        layouts (path.Join [q; d; os.Name file]) h s Hs _
        (fun t => loadFiles fs q d layouts files
                    (<[path.Join [d; os.Name file] := t]> pgs))) as H.
      rewrite Ep in H. rewrite H. clear H.
      destruct (compile_files fs q d s files) as [ps|] eqn:Ec; [discriminate|].
      intros _.
      destruct (IH (<[path.Join [d; os.Name file] :=
                        {| ns := length h; Name := Name layouts |}]> pgs)
                  (h ++ [fresh_ns s'])) as (f & c & h' & Hin & H).
      * rewrite lookup_app_l by (eapply lookup_lt_Some; eassumption). exact Hs.
      * reflexivity.
      * exists f, c, h'. split; [now right | exact H].
    + intros _.
      destruct (compile_page_err fs "failed to clone layout template"
        ("failed to parse page template " +:+ path.Join [q; d; os.Name file])
        layouts (path.Join [q; d; os.Name file]) h s _
        (fun t => loadFiles fs q d layouts files
                    (<[path.Join [d; os.Name file] := t]> pgs)) Hs Ep)
        as (c & h' & Hc & H).
      exists file, c, h'. split; [now left|]. split; [exact Ed|].
      split; [exact Hc | exact H].
Qed.

Lemma loadDirs_err fs q layouts s entries :
  forall pgs (h : Heap),
    h !! ns layouts = Some (fresh_ns s) ->
    compile_dirs fs q s entries = None ->
    (exists entry h',
       In entry entries
       /\ is_ok (os.ReadDir fs (path.Join [q; os.Name entry])) = false
       /\ loadDirs fs q layouts entries pgs h
          = (Err (Wrapf ("could not read the subpages directory "
                         +:+ path.Join [q; os.Name entry])
                    (PathError "open" (path.Join [q; os.Name entry]))), h'))
    \/ (exists entry files file cause h',
          In entry entries
          /\ os.ReadDir fs (path.Join [q; os.Name entry]) = Ok files
          /\ In file files /\ os.IsDir file = false
          /\ parse_cause fs [path.Join [q; os.Name entry; os.Name file]] cause
          /\ loadDirs fs q layouts entries pgs h
             = (Err (Wrapf ("failed to parse page template "
                            +:+ path.Join [q; os.Name entry; os.Name file]) cause), h')).
Proof.
  induction entries as [|entry entries IH]; intros pgs h Hs;
    cbn [compile_dirs loadDirs]; [discriminate|].
  destruct (os.ReadDir fs (path.Join [q; os.Name entry])) as [files|e] eqn:Er.
  - rewrite (bind_wrap_Ok _ (lift (Ok files)) _ h h files) by reflexivity.
    pose proof (loadFiles_spec fs q (os.Name entry) layouts s files pgs h Hs) as HF.
    destruct (compile_files fs q (os.Name entry) s files) as [ps|] eqn:Ec.
    + destruct (compile_dirs fs q s entries) as [qs|] eqn:Ed; [discriminate|].
      intros _.
      assert (Hb : forall k : gmap string Template -> M (gmap string Template),
                 bind (loadFiles fs q (os.Name entry) layouts files pgs) k h
                 = k (install (Name layouts) (length h) ps pgs)
                     (h ++ map (fun p => fresh_ns (snd p)) ps))
        by (intros k; unfold bind; now rewrite HF).
      rewrite !Hb.
      destruct (IH (install (Name layouts) (length h) ps pgs)
                  (h ++ map (fun p => fresh_ns (snd p)) ps)) as [H|H].
      * rewrite lookup_app_l by (eapply lookup_lt_Some; eassumption). exact Hs.
      * reflexivity.
      * left. destruct H as (en & h' & Hin & H). exists en, h'.
        split; [now right | exact H].
      * right. destruct H as (en & fl & f & c & h' & Hin & H).
        exists en, fl, f, c, h'. split; [now right | exact H].
    + intros _. clear HF.
      destruct (loadFiles_err fs q (os.Name entry) layouts s files pgs h Hs Ec)
        as (f & c & h' & Hin & Hd & Hok & H).
      right. exists entry, files, f, c, h'.
      split; [now left|]. split; [exact Er|]. split; [exact Hin|].
      split; [exact Hd|]. split; [exact Hok|].
      unfold bind at 1. now rewrite H.
  - intros _. left. exists entry, h. split; [now left|].
    split; [now rewrite Er|].
    rewrite (bind_wrap_Err _ (lift (Err e)) _ h h e) by reflexivity.
    now rewrite (ReadDir_Err _ _ _ Er).
Qed.

(** X7. For a base path without magic characters, every error [New]
    returns is one of six ([load_error]), and tells what is wrong in the
    tree: the context names the first phase that failed (root, partials,
    layouts, listing the pages directory, listing one of its entries,
    parsing a page file), all phases before it have passed, a category or
    page error names the path that failed, and the cause under a parsing
    context is the library's: no file matches the pattern, a file cannot
    be read, or its text does not parse.  In particular [New] never fails
    in a clone, and never with a bare error. *)
Theorem New_error fs base (h : Heap) e h' :
  filepath.hasMeta base = false ->
  New fs base h = (Err e, h') -> load_error fs base e.
Proof.
  intros Hbase. unfold New, loadPages. cbn [basePath].
  pose proof (Glob_root_lists fs base Hbase) as GR.
  pose proof (Glob_star_lists fs base "partials" Hbase eq_refl eq_refl) as GP.
  pose proof (Glob_star_lists fs base "layouts" Hbase eq_refl eq_refl) as GL.
  pose proof (loadRoot_spec fs {| basePath := base; pages := ∅ |} h) as HR.
  cbn [basePath] in HR.
  destruct (glob_set fs (path.Join [base; "root.html"]) ∅) as [rs|] eqn:ER.
  2:{ destruct HR as (c & h1 & HR). rewrite (bind_wrap_Err _ _ _ _ _ _ HR).
      intros [= <- <-]. apply load_error_root.
      exact (ParseGlob_cause fs _ h c h1 GR HR). }
  rewrite (bind_wrap_Ok _ _ _ _ _ _ HR). clear HR.
  apply glob_set_Some_ok in ER as OR.
  set (rname := glob_name fs (path.Join [base; "root.html"])).
  pose proof (loadPartials_spec fs {| basePath := base; pages := ∅ |}
                {| ns := length h; Name := rname |} (h ++ [fresh_ns rs]) rs
                (lookup_alloc h _)) as HP.
  cbn [basePath Name] in HP.
  destruct (glob_set fs (path.Join [base; "partials"; "*.html"]) rs) as [ps|] eqn:EP.
  2:{ destruct HP as (c & h1 & HP). rewrite (bind_wrap_Err _ _ _ _ _ _ HP).
      intros [= <- <-]. apply load_error_partials; [exact OR|].
      exact (derive_cause fs _ {| ns := length h; Name := rname |} _
               (h ++ [fresh_ns rs]) rs c h1 GP (lookup_alloc h _) HP). }
  rewrite (bind_wrap_Ok _ _ _ _ _ _ HP). clear HP.
  apply glob_set_Some_ok in EP as OP.
  pose proof (loadLayouts_spec fs {| basePath := base; pages := ∅ |}
                {| ns := length (h ++ [fresh_ns rs]); Name := rname |}
                ((h ++ [fresh_ns rs]) ++ [fresh_ns ps]) ps
                (lookup_alloc _ _)) as HL.
  cbn [basePath Name] in HL.
  destruct (glob_set fs (path.Join [base; "layouts"; "*.html"]) ps) as [ls|] eqn:EL.
  2:{ destruct HL as (c & h1 & HL). rewrite (bind_wrap_Err _ _ _ _ _ _ HL).
      intros [= <- <-]. apply load_error_layouts; [exact OR | exact OP|].
      exact (derive_cause fs _ {| ns := length (h ++ [fresh_ns rs]); Name := rname |} _
               ((h ++ [fresh_ns rs]) ++ [fresh_ns ps]) ps c h1 GL (lookup_alloc _ _) HL). }
  rewrite (bind_wrap_Ok _ _ _ _ _ _ HL). clear HL. cbv zeta.
  apply glob_set_Some_ok in EL as OL.
  assert (OA : ancestors_ok fs base = true).
  { unfold ancestors_ok, partials_ok, layouts_ok. now rewrite OR, OP, OL. }
  destruct (os.ReadDir fs (path.Join [base; "pages"])) as [entries|e0] eqn:ED.
  2:{ rewrite (bind_wrap_Err _ (lift (Err e0)) _ _ _ e0) by reflexivity.
      intros [= <- <-]. rewrite (ReadDir_Err _ _ _ ED).
      apply load_error_pages; [exact OA | now rewrite ED]. }
  rewrite (bind_wrap_Ok _ (lift (Ok entries)) _ _ _ entries) by reflexivity.
  pose proof (loadDirs_spec fs (path.Join [base; "pages"])
                {| ns := length ((h ++ [fresh_ns rs]) ++ [fresh_ns ps]); Name := rname |}
                ls entries ∅ (((h ++ [fresh_ns rs]) ++ [fresh_ns ps]) ++ [fresh_ns ls])
                (lookup_alloc _ _)) as HD.
  destruct (compile_dirs fs (path.Join [base; "pages"]) ls entries) as [pgs|] eqn:EC.
  { unfold bind, ret. rewrite HD. discriminate. }
  clear HD.
  destruct (loadDirs_err fs (path.Join [base; "pages"])
              {| ns := length ((h ++ [fresh_ns rs]) ++ [fresh_ns ps]); Name := rname |}
              ls entries ∅ (((h ++ [fresh_ns rs]) ++ [fresh_ns ps]) ++ [fresh_ns ls])
              (lookup_alloc _ _) EC) as [H|H].
  - destruct H as (entry & h1 & Hin & Hf & H). unfold bind at 1. rewrite H.
    intros [= <- <-]. now apply (load_error_category fs base entries entry).
  - destruct H as (entry & files & file & c & h1 & Hin & Hr & Hf & Hd & Hok & H).
    unfold bind at 1. rewrite H.
    intros [= <- <-]. now apply (load_error_page fs base entries entry files file c).
Qed.

End LoadErrors.

Lemma new_stray_fails : is_ok (fst Sample.new_stray) = false.
Proof. vm_compute. reflexivity. Qed.

Lemma New_error_witness :
  exists e, fst Sample.new_stray = Err e
            /\ load_error (L := Literal.lang) Sample.stray_file "examples" e.
Proof.
  pose proof new_stray_fails as Hf.
  destruct Sample.new_stray as [[g|e] h'] eqn:E; [discriminate|].
  exists e. split; [reflexivity|].
  apply (New_error (L := Literal.lang) Sample.stray_file "examples" [] e h');
    [reflexivity | exact E].
Defined.

(** ** What a construction allocates, and what an engine depends on *)

Section Allocation.
Context {L : TemplateLang}.

Import template gotemp.

(** X8. A successful [New] on a well-formed tree allocates exactly three
    template sets (root, partials, layouts) and one per leaf file of the
    pages directory, and nothing else: every set above the three is the
    set of a page of the registry, and every page of the registry points
    above the three. *)
Theorem New_allocates fs base (h : Heap) g h' :
  os.wf fs = true ->
  New fs base h = (Ok g, h') ->
  exists cats,
    os.resolve fs (path.Join [base; "pages"]) = Some (os.Dir true cats)
    /\ length h' = length h + 3 + length (leaf_files cats)
    /\ (forall a, length h + 3 <= a < length h' ->
          exists key t, pages g !! key = Some t /\ ns t = a)
    /\ (forall key t, pages g !! key = Some t -> length h + 3 <= ns t < length h').
Proof.
  intros Hw HN. apply New_Ok_inv in HN as (b & Hb & -> & ->).
  apply build_inv in Hb as (_ & _ & _ & _ & entries & HR & HC).
  apply ReadDir_Ok in HR as (cats & Hres & ->).
  exists cats. split; [exact Hres|].
  pose proof (resolve_wf fs _ _ Hw Hres) as Hwd.
  assert (HK : map fst (page_sets b) = map page_key (leaf_files cats)).
  { eapply compile_dirs_keys; [|exact HC]. intros c x Hin.
    destruct (resolve_entry fs _ _ _ c x Hw (pages_clean_path base) Hres Hin)
      as (Hp & _ & Hx & Hwx). auto. }
  assert (Hlen : length (page_sets b) = length (leaf_files cats)).
  { apply (f_equal (@length string)) in HK. now rewrite !length_map in HK. }
  split; [now rewrite built_heap_length, Hlen|]. split.
  - intros a Ha. rewrite built_heap_length in Ha.
    destruct (lookup_lt_is_Some_2 (page_sets b) (a - (length h + 3)) ltac:(lia))
      as [[key s] Hi].
    exists key, {| ns := length h + 3 + (a - (length h + 3)); Name := root_name b |}.
    split; [|cbn [ns]; lia].
    unfold built_engine. cbn [pages].
    apply (install_lookup_Some _ _ _ _ _ _ s); [|exact Hi].
    rewrite HK. now apply page_keys_NoDup.
  - intros key t Ht. now apply (built_pointer_range h base b key t).
Qed.





End Allocation.

Lemma New_allocates_witness :
  exists cats,
    os.resolve Sample.complete (path.Join ["examples"; "pages"])
    = Some (os.Dir true cats)
    /\ length Sample.heap = 0 + 3 + length (leaf_files cats).
Proof.
  destruct (New_allocates (L := Literal.lang) Sample.complete "examples" []
              Sample.engine Sample.heap eq_refl new_complete_eq)
    as (cats & Hres & Hlen & _).
  exists cats. split; [exact Hres | exact Hlen].
Defined.



